(** * The Astronauts DAO: proposal API and governance engine

    - [Backend] follows the TypeScript sources: the Express router of
      [routes/proposals.ts] (its validation chains and its two handlers) and
      the Prisma schema ([Proposal], [Vote]); [Store] has the writes on the
      two tables.
    - [Deploy] follows [scripts/deploy.ts], [Contracts] the Solidity code of
      the security and optimisation guides.
    - [Governance] holds the voting-power ledger, the governor and the
      timelock.  None of them has an implementation among the sources; every
      definition there is written after the specification and says so. *)

From Stdlib Require Import ZArith Ascii String Floats.
From stdpp Require Import gmap strings list fin_maps.
From Equations Require Import Equations.

Set Warnings "-register-all".

Open Scope string_scope.
Open Scope list_scope.
Open Scope Z_scope.

(* ===================================================================== *)
(** * The backend, as written *)
(* ===================================================================== *)

Module Backend.

(** ** Request bodies *)

(** A JSON value as [express.json()] hands it to a handler; [JUndefined]
    stands for a field that the body does not carry. *)
Inductive Json : Type :=
| JUndefined
| JNull
| JBool (b : bool)
| JNum (z : Z)
| JStr (s : string)
| JArr (items : list Json)
| JObj (fields : list (string * Json)).

(** [req.body]: the parsed object, a map from field names to values. *)
Record Request := { body : gmap string Json }.

(** [req.body[name]] *)
Definition lookupField (name : string) (fields : gmap string Json) : Json :=
  default JUndefined (fields !! name).

(** ** express-validator chains

    [body('title').notEmpty().trim().escape()] is a chain: its items run in
    the order written, each validator looking at the value the sanitizers
    before it have left. *)

Inductive ChainItem := NotEmpty | IsArray | Trim | Escape.

Record ValidationChain := { chainField : string; chainItems : list ChainItem }.

Record ValidationError := { errField : string; errItem : ChainItem }.

(** [trim()] strips what JavaScript's [\s] matches.  A text is held as its
    UTF-8 bytes, so a blank is one byte or a sequence of two or three. *)
Definition isWhitespace (c : ascii) : bool :=
  let n := nat_of_ascii c in
  Nat.eqb n 32 || (Nat.leb 9 n && Nat.leb n 13).

(** U+00A0 *)
Definition isWhitespace2 (a b : ascii) : bool :=
  Nat.eqb (nat_of_ascii a) 194 && Nat.eqb (nat_of_ascii b) 160.

(** U+1680, U+2000 to U+200A, U+2028, U+2029, U+202F, U+205F, U+3000 and
    U+FEFF *)
Definition isWhitespace3 (a b c : ascii) : bool :=
  let '(x, y, z) := (nat_of_ascii a, nat_of_ascii b, nat_of_ascii c) in
  (Nat.eqb x 225 && Nat.eqb y 154 && Nat.eqb z 128)
  || (Nat.eqb x 226 && Nat.eqb y 128
      && ((Nat.leb 128 z && Nat.leb z 138) || Nat.eqb z 168 || Nat.eqb z 169
          || Nat.eqb z 175))
  || (Nat.eqb x 226 && Nat.eqb y 129 && Nat.eqb z 159)
  || (Nat.eqb x 227 && Nat.eqb y 128 && Nat.eqb z 128)
  || (Nat.eqb x 239 && Nat.eqb y 187 && Nat.eqb z 191).

(** The blanks at the head of [cs] removed; with [backwards], [cs] is a text
    read from its end, the bytes of a blank arriving last byte first. *)
Fixpoint dropWhitespace (backwards : bool) (cs : list ascii) : list ascii :=
  match cs with
  | [] => []
  | a :: rest =>
      if isWhitespace a then dropWhitespace backwards rest
      else
        match rest with
        | [] => cs
        | b :: rest2 =>
            if (if backwards then isWhitespace2 b a else isWhitespace2 a b)
            then dropWhitespace backwards rest2
            else
              match rest2 with
              | [] => cs
              | c :: rest3 =>
                  if (if backwards then isWhitespace3 c b a else isWhitespace3 a b c)
                  then dropWhitespace backwards rest3
                  else cs
              end
        end
  end.

Definition trim (s : string) : string :=
  string_of_list_ascii
    (rev (dropWhitespace true (rev (dropWhitespace false (list_ascii_of_string s))))).

Definition escapeChar (c : ascii) : string :=
  let n := nat_of_ascii c in
  if Nat.eqb n 38 then "&amp;"
  else if Nat.eqb n 34 then "&quot;"
  else if Nat.eqb n 39 then "&#x27;"
  else if Nat.eqb n 60 then "&lt;"
  else if Nat.eqb n 62 then "&gt;"
  else if Nat.eqb n 47 then "&#x2F;"
  else if Nat.eqb n 92 then "&#x5C;"
  else if Nat.eqb n 96 then "&#96;"
  else String c EmptyString.

Fixpoint escape (s : string) : string :=
  match s with
  | EmptyString => EmptyString
  | String c rest => String.append (escapeChar c) (escape rest)
  end.

(** [notEmpty()] and [isArray()] belong to express-validator, which is
    imported and not part of the sources; they are given the behaviour of
    express-validator 7.

    A standard validator such as [notEmpty()] does not look at the value but
    at its text, [toString(value)], and [isEmpty] asks of the text only
    whether its length is 0.  [undefined] and [null] have the empty text, a
    string is its own text, numbers, Booleans and plain objects (which read
    [object Object]) have a text that is not empty, and the text of an array
    is that of its items joined by commas. *)
Fixpoint emptyText (v : Json) : bool :=
  match v with
  | JUndefined | JNull => true
  | JStr s => String.eqb s ""
  | JBool _ | JNum _ | JObj _ => false
  | JArr [] => true
  | JArr [item] => emptyText item
  | JArr (_ :: _ :: _) => false
  end.

(** [notEmpty()]: a standard validator is run on a value that is not an array
    once, and on an array once for each of its items, raising an error for
    each text that is empty; on an array without items it is not run at
    all. *)
Definition notEmpty (v : Json) : bool :=
  match v with
  | JArr items => forallb (fun item => negb (emptyText item)) items
  | _ => negb (emptyText v)
  end.

(** [isArray()] is a custom validator: it is given the value itself. *)
Definition isArray (v : Json) : bool :=
  match v with JArr _ => true | _ => false end.

Definition sanitize (f : string -> string) (v : Json) : Json :=
  match v with JStr s => JStr (f s) | _ => v end.

(** One item of a chain: the value it leaves and whether it raised an
    error. *)
Definition runItem (item : ChainItem) (v : Json) : Json * bool :=
  match item with
  | NotEmpty => (v, negb (notEmpty v))
  | IsArray => (v, negb (isArray v))
  | Trim => (sanitize trim v, false)
  | Escape => (sanitize escape v, false)
  end.

Fixpoint runItems (field : string) (items : list ChainItem) (v : Json)
  : list ValidationError :=
  match items with
  | [] => []
  | item :: rest =>
      let '(v', failed) := runItem item v in
      (if failed then [{| errField := field; errItem := item |}] else [])
        ++ runItems field rest v'
  end.

Definition runChain (req : Request) (c : ValidationChain) : list ValidationError :=
  runItems (chainField c) (chainItems c) (lookupField (chainField c) (body req)).

(** The value a chain leaves in [req.body] when its items have run. *)
Fixpoint sanitized (items : list ChainItem) (v : Json) : Json :=
  match items with
  | [] => v
  | item :: rest => sanitized rest (fst (runItem item v))
  end.


(** The three chains of [router.post('/')]. *)
Definition proposalChains : list ValidationChain :=
  [ {| chainField := "title"; chainItems := [NotEmpty; Trim; Escape] |};
    {| chainField := "description"; chainItems := [NotEmpty; Trim] |};
    {| chainField := "actions"; chainItems := [IsArray; NotEmpty] |} ].

Definition validationResult (chains : list ValidationChain) (req : Request)
  : list ValidationError :=
  concat (map (runChain req) chains).

Definition isEmpty (errors : list ValidationError) : bool :=
  match errors with [] => true | _ => false end.

(** ** The Prisma schema *)

Record Proposal := {
  proposal_id : string;
  title : string;
  description : string;
  actions : list Json;
  status : string;
  proposal_createdAt : Z;
  updatedAt : Z
}.

Record Vote := {
  vote_id : string;
  proposalId : string;
  voter : string;
  support : bool;
  power : float;
  vote_createdAt : Z
}.

Record Db := { proposalTable : list Proposal; voteTable : list Vote }.

(** [status String @default("pending")] *)
Definition defaultStatus : string := "pending".

(** [@@unique([proposalId, voter])] *)
Definition voteKey (v : Vote) : string * string := (proposalId v, voter v).

Definition uniqueVotes (db : Db) : Prop := NoDup (map voteKey (voteTable db)).

(** Inserting a [Vote] row: the primary key ([id String @id]) refuses an id
    that is taken, the unique index a second row for the same
    [(proposalId, voter)], the client a [power] that is not a finite number,
    the relation a row whose proposal does not exist. *)
Definition createVote (v : Vote) (db : Db) : option Db :=
  if decide (vote_id v ∈ map vote_id (voteTable db)) then None
  else if decide (voteKey v ∈ map voteKey (voteTable db)) then None
  else if negb (PrimFloat.is_finite (power v)) then None
  else if decide (proposalId v ∈ map proposal_id (proposalTable db)) then
    Some {| proposalTable := proposalTable db; voteTable := voteTable db ++ [v] |}
  else None.

(** ** The handlers *)

(** [AppError] is imported from [middleware/error], which is not among the
    sources; an error is what [new AppError(400, 'Invalid proposal data')]
    is given: a status code and a message. *)
Record AppError := { statusCode : Z; message : string }.

(** What a handler does with its request: it answers
    ([res.status(..).json(..)]) or hands an error to the error middleware
    ([next(error)]). *)
Inductive Reply :=
| Responded (code : Z) (payload : Json)
| Forwarded (error : AppError).

(** [router.get('/')] *)
Definition getProposals (db : Db) (req : Request) : Db * Reply :=
  (db, Responded 200 (JObj [("proposals", JArr [])])).

(** [router.post('/')]: the [throw] inside [try] lands in [catch], which
    calls [next(error)]. *)
Definition postProposal (db : Db) (req : Request) : Db * Reply :=
  let errors := validationResult proposalChains req in
  if negb (isEmpty errors) then
    (db, Forwarded {| statusCode := 400; message := "Invalid proposal data" |})
  else
    (db, Responded 201 (JObj [("message", JStr "Proposal created")])).

(** The field names of the object a handler answers with. *)
Definition payloadFields (r : Reply) : list string :=
  match r with
  | Responded _ (JObj fields) => map fst fields
  | _ => []
  end.

(** The two answers of [router.post('/')], named for the statements below. *)
Definition invalidProposalData : AppError :=
  {| statusCode := 400; message := "Invalid proposal data" |}.

Definition proposalCreated : Reply :=
  Responded 201 (JObj [("message", JStr "Proposal created")]).

(** Requests reaching the router, one after the other. *)
Inductive ApiCall := Get (req : Request) | Post (req : Request).

Definition handle (db : Db) (c : ApiCall) : Db * Reply :=
  match c with
  | Get req => getProposals db req
  | Post req => postProposal db req
  end.

Definition serve (calls : list ApiCall) (db : Db) : Db :=
  fold_left (fun db c => fst (handle db c)) calls db.

End Backend.

(* ===================================================================== *)
(** * The governance engine *)
(* ===================================================================== *)

Module Governance.

(** Modelled from the spec: the ledger, the governor and the timelock have no
    source file; what follows is written after sections 3 to 7 of the
    specification.  First the failure kinds of section 7 and those named in
    4.3; [ActionFailed] is the action-level failure, and the last three name
    rejections for which the specification gives no kind of its own. *)
Inductive ErrorKind :=
| EmptyProposal | InvalidAmount | InvalidAccount
| InsufficientPower | NoVotingPower | AlreadyVoted | VotingClosed
| DelayTooShort | MaxDelayExceeded | TooEarly
| AlreadyExecuted | AlreadyCanceled | NotCancellable
| ActionFailed
| NotSucceeded | UnknownOperation | NotAuthorized.

(** Modelled from the spec: a call returns a result or one of the failure
    kinds. *)
Inductive Outcome (A : Type) :=
| Ok (a : A)
| Rejected (e : ErrorKind).
Arguments Ok {A} a.
Arguments Rejected {A} e.

(** ** VotingPowerLedger *)

(** Modelled from the spec: a checkpoint is [(account, sequence number,
    voting power)]; the account is the key under which the ledger keeps the
    sequence. *)
Record Checkpoint := { cp_seq : Z; cp_power : Z }.

(** Modelled from the spec: the VotingPowerLedger, which has no source file.
    The ledger owns, per account, its own balance,
    its delegatee (itself when none is recorded) and the append-only
    checkpoint sequence of its aggregated power; [currentSeq] is the sequence
    number of the last recorded event. *)
Record Ledger := {
  balances : gmap string Z;
  delegatees : gmap string string;
  checkpoints : gmap string (list Checkpoint);
  currentSeq : Z
}.

(** Modelled from the spec: an account's checkpoint sequence, empty until its
    first checkpoint. *)
Definition checkpointsOf (L : Ledger) (account : string) : list Checkpoint :=
  default [] (checkpoints L !! account).

(** Modelled from the spec: the binary search of [getPower].  It returns the
    number of checkpoints that lie at or before [seq], searching the window
    [lo, hi). *)
Equations? upperBound (cps : list Checkpoint) (seq : Z) (lo hi : nat) : nat
  by wf (hi - lo)%nat lt :=
  upperBound cps seq lo hi with decide (lo < hi)%nat => {
    | right _ := lo;
    | left _ with cps !! ((lo + hi) / 2)%nat => {
        | None := lo;
        | Some c with decide (seq < cp_seq c) => {
            | left _ := upperBound cps seq lo ((lo + hi) / 2)%nat;
            | right _ := upperBound cps seq (S ((lo + hi) / 2)%nat) hi } } }.
Proof.
  all: change (fst (Nat.divmod (lo + hi) 1 0 1)) with ((lo + hi) / 2)%nat.
  all: assert ((lo + hi) / 2 < hi)%nat by (apply Nat.Div0.div_lt_upper_bound; lia).
  all: assert (lo <= (lo + hi) / 2)%nat by (apply Nat.div_le_lower_bound; lia).
  all: lia.
Qed.

(** Modelled from the spec: the power of the entry the search arrives at, 0
    when no entry lies at or before [seq]. *)
Definition powerAt (cps : list Checkpoint) (seq : Z) : Z :=
  match upperBound cps seq 0 (length cps) with
  | O => 0
  | S i => from_option cp_power 0 (cps !! i)
  end.

(** Modelled from the spec: [getPower(account, seq)] of the ledger, which has
    no source file.  A query: it returns a number and no ledger. *)
Definition getPower (L : Ledger) (account : string) (seq : Z) : Z :=
  powerAt (checkpointsOf L account) seq.

(** Modelled from the spec: an account's own balance-power. *)
Definition balanceOf (L : Ledger) (account : string) : Z :=
  default 0 (balances L !! account).

(** Modelled from the spec: self-delegation is the default state. *)
Definition delegateeOf (L : Ledger) (account : string) : string :=
  default account (delegatees L !! account).

(** Modelled from the spec: a checkpoint is appended, never rewritten; the new
    entry carries the account's latest power changed by [delta]. *)
Definition appendCheckpoint (account : string) (delta seq : Z)
    (cs : gmap string (list Checkpoint)) : gmap string (list Checkpoint) :=
  let cps := default [] (cs !! account) in
  <[account := cps ++ [{| cp_seq := seq;
                          cp_power := from_option cp_power 0 (last cps) + delta |}]]> cs.

(** Modelled from the spec: one checkpoint per affected delegatee. *)
Definition movePower (src dst : string) (amount seq : Z)
    (cs : gmap string (list Checkpoint)) : gmap string (list Checkpoint) :=
  if decide (src = dst) then appendCheckpoint src 0 seq cs
  else appendCheckpoint dst amount seq (appendCheckpoint src (- amount) seq cs).

(** Modelled from the spec: [recordTransfer(from, to, amount, seq)] of the
    ledger, which has no source file. *)
Definition recordTransfer (from to : string) (amount seq : Z) (L : Ledger)
  : Ledger * Outcome unit :=
  if decide (amount < 0) then (L, Rejected InvalidAmount)
  else if decide (balanceOf L from < amount) then (L, Rejected InvalidAmount)
  else
    let debited := <[from := balanceOf L from - amount]> (balances L) in
    let credited := <[to := default 0 (debited !! to) + amount]> debited in
    ({| balances := credited;
        delegatees := delegatees L;
        checkpoints :=
          movePower (delegateeOf L from) (delegateeOf L to) amount seq (checkpoints L);
        currentSeq := seq |}, Ok tt).

(** Modelled from the spec: [delegate(delegator, delegatee, seq)] of the
    ledger, which has no source file. *)
Definition delegate (delegator delegatee : string) (seq : Z) (L : Ledger)
  : Ledger * Outcome unit :=
  if decide (delegatee = "") then (L, Rejected InvalidAccount)
  else
    ({| balances := balances L;
        delegatees := <[delegator := delegatee]> (delegatees L);
        checkpoints :=
          movePower (delegateeOf L delegator) delegatee (balanceOf L delegator) seq
            (checkpoints L);
        currentSeq := seq |}, Ok tt).

(** Modelled from the spec: the total voting power supply as of [seq], the
    powers of all accounts at that point added up. *)
Definition totalSupplyAt (L : Ledger) (seq : Z) : Z :=
  map_fold (fun _ cps acc => powerAt cps seq + acc) 0 (checkpoints L).

(** ** ProposalStore, Governor and TimelockScheduler: data *)

(** Modelled from the spec: [Action] is [(target, value, payload)]. *)
Record Action := { target : string; value : Z; payload : string }.

(** Modelled from the spec: the states of the governor's state machine. *)
Inductive ProposalState :=
| Pending | Active | Canceled | Defeated | Succeeded | Queued | Executed | Expired.

(** Modelled from the spec (design notes): the states that are stored rather
    than derived from time and votes. *)
Inductive StoredState :=
| Derived | StoredCanceled | StoredQueued | StoredExecuted | StoredExpired.

(** Modelled from the spec: [Proposal]; [stored] is its stored state. *)
Record Proposal := {
  proposalId : nat;
  proposer : string;
  actions : list Action;
  description : string;
  snapshotSeq : Z;
  votingStart : Z;
  votingEnd : Z;
  votesFor : Z;
  votesAgainst : Z;
  votesAbstain : Z;
  stored : StoredState;
  eta : option Z
}.

(** Modelled from the spec: the support of a vote record. *)
Inductive Support := For | Against | Abstain.

(** Modelled from the spec: [VoteRecord]. *)
Record VoteRecord := {
  vr_proposalId : nat;
  vr_voter : string;
  vr_support : Support;
  vr_weight : Z;
  vr_reason : string
}.

(** Modelled from the spec: [TimelockOperation] and its states. *)
Inductive OperationState := Scheduled | OpExecuted | OpCanceled.

Record TimelockOperation := {
  operationId : nat;
  op_proposalId : nat;
  op_eta : Z;
  op_state : OperationState
}.

(** Modelled from the spec: the parameters the operations refer to, and the
    accounts that hold the canceller role. *)
Record Config := {
  votingDelay : Z;
  votingPeriod : Z;
  proposalThreshold : Z;
  quorumNumerator : Z;
  quorumDenominator : Z;
  timelockDelay : Z;
  minDelay : Z;
  maxDelay : Z;
  cancellers : list string
}.

(** Modelled from the spec: the engine's state.  The proposal with id [i] is
    the [i]-th of [proposals], the operation with id [i] the [i]-th of
    [operations]; [votes] is the log of vote records; [world] is whatever the
    proposals' actions act upon. *)
Record System {World : Type} := {
  ledger : Ledger;
  proposals : list Proposal;
  votes : list VoteRecord;
  operations : list TimelockOperation;
  world : World
}.
Arguments System World : clear implicits.

Section Engine.
Context {World : Type}.
Variable cfg : Config.
Variable perform : Action -> World -> option World.

Local Abbreviation Sys := (System World).

Definition withLedger (L : Ledger) (s : Sys) : Sys :=
  {| ledger := L; proposals := proposals s; votes := votes s;
     operations := operations s; world := world s |}.

(** The world changes outside the engine (a treasury is refilled). *)
Definition withWorld (w : World) (s : Sys) : Sys :=
  {| ledger := ledger s; proposals := proposals s; votes := votes s;
     operations := operations s; world := w |}.

(** ** Governor *)

(** Modelled from the spec: the fraction [quorumNumerator / quorumDenominator]
    of the total supply as of [seq]. *)
Definition quorum (L : Ledger) (seq : Z) : Z :=
  totalSupplyAt L seq * quorumNumerator cfg / quorumDenominator cfg.

(** Modelled from the spec: [Succeeded] if the For votes exceed the Against
    votes and the three tallies together reach the quorum, else
    [Defeated]. *)
Definition tallyOutcome (L : Ledger) (p : Proposal) : ProposalState :=
  if (votesAgainst p <? votesFor p)
     && (quorum L (snapshotSeq p) <=? votesFor p + votesAgainst p + votesAbstain p)
  then Succeeded else Defeated.

(** Modelled from the spec: [state(proposalId, now)] on the proposal found. *)
Definition proposalState (L : Ledger) (p : Proposal) (now : Z) : ProposalState :=
  match stored p with
  | StoredCanceled => Canceled
  | StoredQueued => Queued
  | StoredExecuted => Executed
  | StoredExpired => Expired
  | Derived =>
      if decide (now < votingStart p) then Pending
      else if decide (now < votingEnd p) then Active
      else tallyOutcome L p
  end.

(** Modelled from the spec: [state(proposalId, now)]; [None] for an id that
    no proposal has. *)
Definition state (s : Sys) (pid : nat) (now : Z) : option ProposalState :=
  (fun p => proposalState (ledger s) p now) <$> proposals s !! pid.

(** Modelled from the spec: [propose(proposer, actions, description, now)] of
    the governor, which has no source file (the router's
    [Backend.postProposal] is what the sources have of it). *)
Definition propose (proposer : string) (acts : list Action) (descr : string)
    (now : Z) (s : Sys) : Sys * Outcome nat :=
  match acts with
  | [] => (s, Rejected EmptyProposal)
  | _ :: _ =>
      if decide (getPower (ledger s) proposer (currentSeq (ledger s))
                 <= proposalThreshold cfg)
      then (s, Rejected InsufficientPower)
      else
        let pid := length (proposals s) in
        let p := {| proposalId := pid; proposer := proposer; actions := acts;
                    description := descr;
                    snapshotSeq := currentSeq (ledger s);
                    votingStart := now + votingDelay cfg;
                    votingEnd := now + votingDelay cfg + votingPeriod cfg;
                    votesFor := 0; votesAgainst := 0; votesAbstain := 0;
                    stored := Derived; eta := None |} in
        ({| ledger := ledger s; proposals := proposals s ++ [p];
            votes := votes s; operations := operations s; world := world s |},
         Ok pid)
  end.

Definition voteKey (r : VoteRecord) : nat * string := (vr_proposalId r, vr_voter r).

(** Modelled from the spec: there is a prior vote record for
    [(proposalId, voter)]. *)
Definition hasVoted (s : Sys) (pid : nat) (voter : string) : bool :=
  bool_decide ((pid, voter) ∈ map voteKey (votes s)).

(** Modelled from the spec: the weight goes to the tally bucket that matches
    the support. *)
Definition addToBucket (p : Proposal) (support : Support) (weight : Z) : Proposal :=
  {| proposalId := proposalId p; proposer := proposer p; actions := actions p;
     description := description p; snapshotSeq := snapshotSeq p;
     votingStart := votingStart p; votingEnd := votingEnd p;
     votesFor := match support with For => votesFor p + weight | _ => votesFor p end;
     votesAgainst :=
       match support with Against => votesAgainst p + weight | _ => votesAgainst p end;
     votesAbstain :=
       match support with Abstain => votesAbstain p + weight | _ => votesAbstain p end;
     stored := stored p; eta := eta p |}.

(** Modelled from the spec: [castVote(proposalId, voter, support, reason,
    now)] of the governor, which has no source file; the requirements are
    checked in the order the spec lists them.  A successful call returns the
    weight it counted. *)
Definition castVote (pid : nat) (voter : string) (support : Support)
    (reason : string) (now : Z) (s : Sys) : Sys * Outcome Z :=
  match proposals s !! pid with
  | None => (s, Rejected VotingClosed)
  | Some p =>
      match proposalState (ledger s) p now with
      | Active =>
          if hasVoted s pid voter then (s, Rejected AlreadyVoted)
          else
            let weight := getPower (ledger s) voter (snapshotSeq p) in
            if decide (weight = 0) then (s, Rejected NoVotingPower)
            else
              ({| ledger := ledger s;
                  proposals := <[pid := addToBucket p support weight]> (proposals s);
                  votes := votes s ++ [{| vr_proposalId := pid; vr_voter := voter;
                                          vr_support := support; vr_weight := weight;
                                          vr_reason := reason |}];
                  operations := operations s; world := world s |},
               Ok weight)
      | _ => (s, Rejected VotingClosed)
      end
  end.

Definition setStored (st : StoredState) (e : option Z) (p : Proposal) : Proposal :=
  {| proposalId := proposalId p; proposer := proposer p; actions := actions p;
     description := description p; snapshotSeq := snapshotSeq p;
     votingStart := votingStart p; votingEnd := votingEnd p;
     votesFor := votesFor p; votesAgainst := votesAgainst p;
     votesAbstain := votesAbstain p; stored := st; eta := e |}.

(** ** TimelockScheduler *)

(** Modelled from the spec: [schedule(proposalId, eta)] of the timelock,
    which has no source file, with the upper bound on the delay checked here
    too. *)
Definition schedule (pid : nat) (eta' now : Z) (s : Sys) : Sys * Outcome nat :=
  if decide (eta' < now + minDelay cfg) then (s, Rejected DelayTooShort)
  else if decide (now + maxDelay cfg < eta') then (s, Rejected MaxDelayExceeded)
  else
    let oid := length (operations s) in
    ({| ledger := ledger s; proposals := proposals s; votes := votes s;
        operations := operations s ++ [{| operationId := oid; op_proposalId := pid;
                                          op_eta := eta'; op_state := Scheduled |}];
        world := world s |}, Ok oid).

(** Modelled from the spec: [queue(proposalId, now)] of the governor, which
    has no source file. *)
Definition queue (pid : nat) (now : Z) (s : Sys) : Sys * Outcome nat :=
  match proposals s !! pid with
  | None => (s, Rejected NotSucceeded)
  | Some p =>
      match proposalState (ledger s) p now with
      | Succeeded =>
          let eta' := now + timelockDelay cfg in
          match schedule pid eta' now s with
          | (s', Ok oid) =>
              ({| ledger := ledger s';
                  proposals := <[pid := setStored StoredQueued (Some eta') p]> (proposals s');
                  votes := votes s'; operations := operations s'; world := world s' |},
               Ok oid)
          | (_, Rejected e) => (s, Rejected e)
          end
      | _ => (s, Rejected NotSucceeded)
      end
  end.

(** Modelled from the spec: the actions of a proposal, invoked one after the
    other in order; [None] as soon as one of them fails. *)
Fixpoint runActions (acts : list Action) (w : World) : option World :=
  match acts with
  | [] => Some w
  | a :: rest =>
      match perform a w with
      | Some w' => runActions rest w'
      | None => None
      end
  end.

Definition setOperationState (st : OperationState) (op : TimelockOperation)
  : TimelockOperation :=
  {| operationId := operationId op; op_proposalId := op_proposalId op;
     op_eta := op_eta op; op_state := st |}.

(** Modelled from the spec: [execute(operationId, now)] of the timelock,
    which has no source file.  The actions run on a copy of the world; the
    state changes only when all of them have gone through. *)
Definition execute (oid : nat) (now : Z) (s : Sys) : Sys * Outcome unit :=
  match operations s !! oid with
  | None => (s, Rejected UnknownOperation)
  | Some op =>
      match op_state op with
      | OpExecuted => (s, Rejected AlreadyExecuted)
      | OpCanceled => (s, Rejected AlreadyCanceled)
      | Scheduled =>
          if decide (now < op_eta op) then (s, Rejected TooEarly)
          else
            match proposals s !! op_proposalId op with
            | None => (s, Rejected UnknownOperation)
            | Some p =>
                match runActions (actions p) (world s) with
                | None => (s, Rejected ActionFailed)
                | Some w' =>
                    ({| ledger := ledger s;
                        proposals :=
                          <[op_proposalId op := setStored StoredExecuted (eta p) p]>
                            (proposals s);
                        votes := votes s;
                        operations :=
                          <[oid := setOperationState OpExecuted op]> (operations s);
                        world := w' |}, Ok tt)
                end
            end
      end
  end.

(** Modelled from the spec: [cancel(operationId, actor)] of the timelock,
    which has no source file. *)
Definition cancel (oid : nat) (actor : string) (s : Sys) : Sys * Outcome unit :=
  if decide (actor ∈ cancellers cfg) then
    match operations s !! oid with
    | None => (s, Rejected UnknownOperation)
    | Some op =>
        match op_state op with
        | Scheduled =>
            ({| ledger := ledger s; proposals := proposals s; votes := votes s;
                operations := <[oid := setOperationState OpCanceled op]> (operations s);
                world := world s |}, Ok tt)
        | _ => (s, Rejected NotCancellable)
        end
    end
  else (s, Rejected NotAuthorized).

(** ** The caller surface *)

(** Modelled from the spec: the calls of section 6 that change the state
    ([state] and [getPower] are queries). *)
Inductive Call :=
| CallDelegate (delegator delegatee : string) (seq : Z)
| CallRecordTransfer (from to : string) (amount seq : Z)
| CallPropose (proposer : string) (acts : list Action) (descr : string) (now : Z)
| CallCastVote (pid : nat) (voter : string) (support : Support) (reason : string) (now : Z)
| CallQueue (pid : nat) (now : Z)
| CallExecute (oid : nat) (now : Z)
| CallCancel (oid : nat) (actor : string).

(** The state a call leaves behind (a rejected call leaves the state it
    found). *)
Definition step (s : Sys) (c : Call) : Sys :=
  match c with
  | CallDelegate d e seq => withLedger (fst (delegate d e seq (ledger s))) s
  | CallRecordTransfer f t a seq => withLedger (fst (recordTransfer f t a seq (ledger s))) s
  | CallPropose p acts d now => fst (propose p acts d now s)
  | CallCastVote pid v sup r now => fst (castVote pid v sup r now s)
  | CallQueue pid now => fst (queue pid now s)
  | CallExecute oid now => fst (execute oid now s)
  | CallCancel oid actor => fst (cancel oid actor s)
  end.

Definition run (calls : list Call) (s : Sys) : Sys := fold_left step calls s.

End Engine.

(** ** Vocabulary of the ledger properties *)

(** Checkpoints are ordered ascending by sequence number. *)
Definition ascending (cps : list Checkpoint) : Prop :=
  forall i j c d, (i <= j)%nat -> cps !! i = Some c -> cps !! j = Some d ->
    cp_seq c <= cp_seq d.

(** The first [r] checkpoints lie at or before [seq], all others after it. *)
Definition splitsAt (cps : list Checkpoint) (seq : Z) (r : nat) : Prop :=
  (forall i c, (i < r)%nat -> cps !! i = Some c -> cp_seq c <= seq) /\
  (forall i c, (r <= i)%nat -> cps !! i = Some c -> seq < cp_seq c).

(** Every account's checkpoints are ascending and none lies after [bound]. *)
Definition orderedBelow (bound : Z) (cs : gmap string (list Checkpoint)) : Prop :=
  forall a cps, cs !! a = Some cps ->
    ascending cps /\ Forall (fun c => cp_seq c <= bound) cps.

Definition ledgerOrdered (L : Ledger) : Prop :=
  orderedBelow (currentSeq L) (checkpoints L).

(** The ledger's own calls, for the properties that speak of the ledger
    alone. *)
Inductive LedgerCall :=
| Delegate (delegator delegatee : string) (seq : Z)
| RecordTransfer (from to : string) (amount seq : Z).

Definition callSeq (c : LedgerCall) : Z :=
  match c with Delegate _ _ seq => seq | RecordTransfer _ _ _ seq => seq end.

Definition ledgerStep (L : Ledger) (c : LedgerCall) : Ledger :=
  match c with
  | Delegate d e seq => fst (delegate d e seq L)
  | RecordTransfer f t a seq => fst (recordTransfer f t a seq L)
  end.

Definition ledgerRun (calls : list LedgerCall) (L : Ledger) : Ledger :=
  fold_left ledgerStep calls L.

(** Calls arrive in the order of their sequence numbers, none before
    [from]. *)
Fixpoint chronological (from : Z) (calls : list LedgerCall) : Prop :=
  match calls with
  | [] => True
  | c :: rest => from <= callSeq c /\ chronological (callSeq c) rest
  end.

End Governance.

(* ===================================================================== *)
(** * The database behind the schema *)
(* ===================================================================== *)

Module Store.
Import Backend.

(** [proposal Proposal @relation(fields: [proposalId], references: [id])]:
    every vote belongs to a stored proposal. *)
Definition referentialIntegrity (db : Db) : Prop :=
  Forall (fun v => proposalId v ∈ map proposal_id (proposalTable db)) (voteTable db).

(** [id String @id] of [Proposal]. *)
Definition uniqueProposalIds (db : Db) : Prop :=
  NoDup (map proposal_id (proposalTable db)).

Definition consistent (db : Db) : Prop :=
  uniqueProposalIds db /\ uniqueVotes db /\ referentialIntegrity db.

(** What the caller of [proposal.create] supplies; [status] may be left
    out. *)
Record ProposalData := {
  data_title : string;
  data_description : string;
  data_actions : list Json;
  data_status : option string
}.

(** Inserting a [Proposal] row under the id [id] at time [now]: the primary
    key refuses an id that is taken; a status left out is ["pending"];
    [createdAt] is [now()] and [updatedAt] the time of the write. *)
Definition createProposal (id : string) (now : Z) (data : ProposalData) (db : Db)
  : option Db :=
  if decide (id ∈ map proposal_id (proposalTable db)) then None
  else
    Some {| proposalTable :=
              proposalTable db
                ++ [{| proposal_id := id; title := data_title data;
                       description := data_description data;
                       actions := data_actions data;
                       status := default defaultStatus (data_status data);
                       proposal_createdAt := now; updatedAt := now |}];
            voteTable := voteTable db |}.

(** [prisma.vote.deleteMany()]: all rows go; the answer is their count. *)
Definition deleteManyVotes (db : Db) : Db * nat :=
  ({| proposalTable := proposalTable db; voteTable := [] |}, length (voteTable db)).

(** Some vote still points at a stored proposal. *)
Definition referenced (db : Db) : bool :=
  existsb (fun v => bool_decide (proposalId v ∈ map proposal_id (proposalTable db)))
    (voteTable db).

(** [prisma.proposal.deleteMany()]: the relation of [Vote] is required and
    names no [onDelete], so a proposal that a vote points at cannot be
    deleted and the call fails as a whole. *)
Definition deleteManyProposals (db : Db) : option (Db * nat) :=
  if referenced db then None
  else Some ({| proposalTable := []; voteTable := voteTable db |},
             length (proposalTable db)).

(** [beforeEach] of the API tests: votes first, then proposals. *)
Definition beforeEach (db : Db) : option Db :=
  let '(db1, _) := deleteManyVotes db in
  fst <$> deleteManyProposals db1.

(** The writes the schema allows, and a run of them; a write that is refused
    leaves the database as it was. *)
Inductive Write :=
| CreateProposal (id : string) (now : Z) (data : ProposalData)
| CreateVote (v : Vote)
| DeleteManyVotes
| DeleteManyProposals.

Definition write (db : Db) (w : Write) : Db :=
  match w with
  | CreateProposal id now data => default db (createProposal id now data db)
  | CreateVote v => default db (createVote v db)
  | DeleteManyVotes => fst (deleteManyVotes db)
  | DeleteManyProposals => default db (fst <$> deleteManyProposals db)
  end.

Definition writes (ws : list Write) (db : Db) : Db := fold_left write ws db.


Definition empty : Db := {| proposalTable := []; voteTable := [] |}.

End Store.

(* ===================================================================== *)
(** * The deployment script *)
(* ===================================================================== *)

Module Deploy.

Section Script.
Context {Shell Failure : Type}.

(** [execAsync = promisify(exec)]: running a command changes the machine and
    the promise resolves ([None]) or is rejected with an error. *)
Variable execAsync : string -> Shell -> Shell * option Failure.

(** A line of [console.log] or of [console.error]. *)
Inductive Line :=
| Logged (msg : string)
| Errored (msg : string) (error : Failure).

(** The running script: the machine it acts on, what it has printed, and the
    code it has exited with, if it has. *)
Record Process := {
  shell : Shell;
  console : list Line;
  exitCode : option Z
}.

(** A stretch of the [async] function: it ends normally or throws. *)
Definition Script := Process -> Process * option Failure.

Definition andThen (first next : Script) : Script :=
  fun p =>
    match first p with
    | (p', None) => next p'
    | (p', Some error) => (p', Some error)
    end.

Notation "a >> b" := (andThen a b) (at level 61, left associativity).

(** [console.log(msg)] *)
Definition log (msg : string) : Script :=
  fun p => ({| shell := shell p; console := console p ++ [Logged msg];
               exitCode := exitCode p |}, None).

(** [await execAsync(command)]: a rejected promise throws. *)
Definition await (command : string) : Script :=
  fun p =>
    let '(sh, result) := execAsync command (shell p) in
    ({| shell := sh; console := console p; exitCode := exitCode p |}, result).

Definition buildFrontend : string := "cd frontend && npm run build".
Definition buildBackend : string := "cd backend && npm run build".
Definition migrate : string := "cd backend && npx prisma migrate deploy".

(** The body of [try]. *)
Definition deploySteps : Script :=
  log "Building frontend..." >> await buildFrontend
  >> log "Building backend..." >> await buildBackend
  >> log "Running database migrations..." >> await migrate
  >> log "Deployment completed successfully!".

(** [deploy()]: [catch] prints the error and calls [process.exit(1)]. *)
Definition deploy (p : Process) : Process :=
  match deploySteps p with
  | (p', None) => p'
  | (p', Some error) =>
      {| shell := shell p';
         console := console p' ++ [Errored "Deployment failed:" error];
         exitCode := Some 1 |}
  end.

(** ** Vocabulary of the script's properties *)

(** Commands run one after the other, up to the first that fails. *)
Fixpoint runUntilFailure (commands : list string) (sh : Shell)
  : Shell * option Failure :=
  match commands with
  | [] => (sh, None)
  | command :: rest =>
      match execAsync command sh with
      | (sh', None) => runUntilFailure rest sh'
      | (sh', Some error) => (sh', Some error)
      end
  end.

(** How many of the commands go through before the first that fails. *)
Fixpoint completed (commands : list string) (sh : Shell) : nat :=
  match commands with
  | [] => 0
  | command :: rest =>
      match execAsync command sh with
      | (sh', None) => S (completed rest sh')
      | (_, Some _) => 0
      end
  end.

(** The same machine, keeping a record of the commands it was given. *)
Definition recording (command : string) (sh : Shell * list string)
  : (Shell * list string) * option Failure :=
  let '(sh', result) := execAsync command (fst sh) in
  ((sh', snd sh ++ [command]), result).

End Script.

Definition commands : list string := [buildFrontend; buildBackend; migrate].

(** The lines printed before each command. *)
Definition progressLines {Failure : Type} : list (@Line Failure) :=
  [ Logged "Building frontend..."; Logged "Building backend...";
    Logged "Running database migrations..." ].

(** A process that has printed nothing and has not exited. *)
Definition fresh {Shell Failure : Type} (sh : Shell) : @Process Shell Failure :=
  {| shell := sh; console := []; exitCode := None |}.

End Deploy.

(* ===================================================================== *)
(** * The contract code of the security guide *)
(* ===================================================================== *)

Module Contracts.

(** [uint256] values are the integers below [2 ^ 256]; an [address] is an
    integer too, [address(0)] being 0. *)
Definition uint256Limit : Z := 2 ^ 256.

Definition isUint256 (x : Z) : Prop := 0 <= x < uint256Limit.

(** [a.add(b)] and [a.sub(b)] of SafeMath, [sum += x] of Solidity 0.8: the
    result, or [None] where the transaction reverts because the result
    leaves the range. *)
Definition checkedAdd (a b : Z) : option Z :=
  if decide (a + b < uint256Limit) then Some (a + b) else None.

Definition checkedSub (a b : Z) : option Z :=
  if decide (b <= a) then Some (a - b) else None.

(** ** Input validation of [propose] *)

(** What a chain of [require]s comes to: the call goes on, or reverts with a
    reason. *)
Inductive Guard := Passes | Reverts (reason : string).

(** [for (uint256 i = 0; i < targets.length; i++)
       require(targets[i] != address(0), "Invalid target");] *)
Fixpoint checkTargets (targets : list Z) : Guard :=
  match targets with
  | [] => Passes
  | target :: rest =>
      if decide (target = 0) then Reverts "Invalid target" else checkTargets rest
  end.

(** [function propose(targets, values, calldatas, description)] up to its
    [// Implementation]. *)
Definition proposeGuard (targets values : list Z) (calldatas : list string)
    (description : string) : Guard :=
  if bool_decide (0 < length targets)%nat then
    if bool_decide (length targets = length values)
       && bool_decide (length targets = length calldatas)
    then
      if bool_decide (0 < String.length description)%nat then checkTargets targets
      else Reverts "Empty description"
    else Reverts "Length mismatch"
  else Reverts "Empty proposal".

(** ** [Token.transfer] *)

(** [balances[account]]: a mapping reads 0 where nothing was written. *)
Definition balanceOf (balances : gmap Z Z) (account : Z) : Z :=
  default 0 (balances !! account).

(** [function transfer(address to, uint256 amount)], called by [sender]. *)
Definition transfer (sender to amount : Z) (balances : gmap Z Z)
  : option (gmap Z Z) :=
  debited ← checkedSub (balanceOf balances sender) amount;
  let balances1 := <[sender := debited]> balances in
  credited ← checkedAdd (balanceOf balances1 to) amount;
  Some (<[to := credited]> balances1).

Definition totalSupply (balances : gmap Z Z) : Z :=
  map_fold (fun _ balance total => balance + total) 0 balances.

(** Every balance is a [uint256]. *)
Definition inRange (balances : gmap Z Z) : Prop :=
  forall account, isUint256 (balanceOf balances account).

(** ** [processArray] *)

(** The loop [for (uint256 i; i < data.length; ++i) sum += data[i];] from
    the running sum [sum] on. *)
Fixpoint sumFrom (sum : Z) (data : list Z) : option Z :=
  match data with
  | [] => Some sum
  | x :: rest => sum' ← checkedAdd sum x; sumFrom sum' rest
  end.

(** [function processArray(uint256[] calldata data)] *)
Definition processArray (data : list Z) : option Z := sumFrom 0 data.

(** The sum of the entries, as a number. *)
Definition sumOf (data : list Z) : Z := foldr Z.add 0 data.

End Contracts.

(* ===================================================================== *)
(** * Sample data *)
(* ===================================================================== *)

Module Sample.
Import Governance.

(** The requests of the API test suite, and others that fail one check each. *)
Definition action : Backend.Json :=
  Backend.JObj [ ("target", Backend.JStr "0x1234567890123456789012345678901234567890");
                 ("value", Backend.JStr "0");
                 ("data", Backend.JStr "0x") ].

Definition validRequest : Backend.Request :=
  {| Backend.body :=
       {[ "title" := Backend.JStr "Test Proposal";
          "description" := Backend.JStr "This is a test proposal";
          "actions" := Backend.JArr [action] ]} |}.

Definition emptyRequest : Backend.Request :=
  {| Backend.body :=
       {[ "title" := Backend.JStr ""; "description" := Backend.JStr "";
          "actions" := Backend.JArr [] ]} |}.

Definition noActionsRequest : Backend.Request :=
  {| Backend.body :=
       {[ "title" := Backend.JStr "Test Proposal";
          "description" := Backend.JStr "This is a test proposal";
          "actions" := Backend.JArr [] ]} |}.

Definition noTitleRequest : Backend.Request :=
  {| Backend.body :=
       {[ "title" := Backend.JStr "";
          "description" := Backend.JStr "This is a test proposal";
          "actions" := Backend.JArr [action] ]} |}.

Definition noDescriptionRequest : Backend.Request :=
  {| Backend.body :=
       {[ "title" := Backend.JStr "Test Proposal";
          "description" := Backend.JStr "";
          "actions" := Backend.JArr [action] ]} |}.


(** A title of three spaces and a no-break space. *)
Definition blankTitleRequest : Backend.Request :=
  {| Backend.body :=
       {[ "title" := Backend.JStr (String.append "   "
                        (String (ascii_of_nat 194) (String (ascii_of_nat 160) "")));
          "description" := Backend.JStr "This is a test proposal";
          "actions" := Backend.JArr [action] ]} |}.

Definition emptyDb : Backend.Db :=
  {| Backend.proposalTable := []; Backend.voteTable := [] |}.

(** A stored proposal and a vote on it. *)
Definition proposalRow : Backend.Proposal :=
  {| Backend.proposal_id := "p-1"; Backend.title := "Test Proposal";
     Backend.description := "This is a test proposal";
     Backend.actions := [action]; Backend.status := Backend.defaultStatus;
     Backend.proposal_createdAt := 0; Backend.updatedAt := 0 |}.

Definition voteRow : Backend.Vote :=
  {| Backend.vote_id := "v-1"; Backend.proposalId := "p-1";
     Backend.voter := "0xabc"; Backend.support := true;
     Backend.power := 40%float; Backend.vote_createdAt := 1 |}.


Definition dbWithProposal : Backend.Db :=
  {| Backend.proposalTable := [proposalRow]; Backend.voteTable := [] |}.

Definition dbWithVote : Backend.Db :=
  {| Backend.proposalTable := [proposalRow]; Backend.voteTable := [voteRow] |}.

(** A ledger in which alice holds all of the supply, 1000. *)
Definition genesis : Ledger :=
  {| balances := {[ "alice" := 1000 ]};
     delegatees := ∅;
     checkpoints := {[ "alice" := [ {| cp_seq := 0; cp_power := 1000 |} ] ]};
     currentSeq := 0 |}.

(** Quorum 4%, proposal threshold 10, one day of timelock. *)
Definition config : Config :=
  {| votingDelay := 10; votingPeriod := 50; proposalThreshold := 10;
     quorumNumerator := 4; quorumDenominator := 100;
     timelockDelay := 86400; minDelay := 86400; maxDelay := 2592000;
     cancellers := ["admin"] |}.

(** The world the sample actions act upon is a treasury balance; an action
    spends its [value] and fails when the treasury holds less. *)
Definition spend (a : Action) (treasury : Z) : option Z :=
  if decide (value a <= treasury) then Some (treasury - value a) else None.

Definition start : System Z :=
  {| ledger := genesis; proposals := []; votes := []; operations := [];
     world := 100 |}.

Definition pay (amount : Z) : Action :=
  {| target := "treasury"; value := amount; payload := "0x" |}.

(** Scenario C: bob holds 30 and carol 5 when alice proposes; bob votes For,
    carol Against. *)
Definition scenarioSetup : list Call :=
  [ CallRecordTransfer "alice" "bob" 30 1;
    CallRecordTransfer "alice" "carol" 5 2;
    CallPropose "alice" [pay 60; pay 60] "Pay twice" 100 ].

Definition scenarioC : list Call :=
  scenarioSetup
    ++ [ CallCastVote 0 "bob" For "yes" 120;
         CallCastVote 0 "carol" Against "no" 121 ].

(** Scenario E: alice votes For as well, the proposal succeeds and is queued;
    its two payments of 60 meet a treasury of 100. *)
Definition scenarioE : list Call :=
  scenarioC ++ [ CallCastVote 0 "alice" For "yes" 122; CallQueue 0 200 ].

Definition proposed : System Z := run config spend scenarioSetup start.
Definition afterC : System Z := run config spend scenarioC start.
Definition afterE : System Z := run config spend scenarioE start.

(** Scenario E: the queued proposal and its timelock operation. *)
Definition proposalE : Proposal :=
  {| proposalId := 0; proposer := "alice"; actions := [pay 60; pay 60];
     description := "Pay twice"; snapshotSeq := 2;
     votingStart := 110; votingEnd := 160;
     votesFor := 995; votesAgainst := 5; votesAbstain := 0;
     stored := StoredQueued; eta := Some 86600 |}.

Definition operationE : TimelockOperation :=
  {| operationId := 0; op_proposalId := 0; op_eta := 86600; op_state := Scheduled |}.

(** The proposal of scenario C as it stands after the two votes. *)
Definition proposalC : Proposal :=
  {| proposalId := 0; proposer := "alice"; actions := [pay 60; pay 60];
     description := "Pay twice"; snapshotSeq := 2;
     votingStart := 110; votingEnd := 160;
     votesFor := 30; votesAgainst := 5; votesAbstain := 0;
     stored := Derived; eta := None |}.

End Sample.

(* ===================================================================== *)
(** * Properties of the backend *)
(* ===================================================================== *)

Module BackendFacts.
Import Backend.

(** The decision of [router.post('/')], spelled out: the four validators of
    the three chains, nothing else. *)
Lemma postProposal_decision (db : Db) (req : Request) :
  postProposal db req =
  if notEmpty (lookupField "title" (body req))
     && notEmpty (lookupField "description" (body req))
     && isArray (lookupField "actions" (body req))
     && notEmpty (lookupField "actions" (body req))
  then (db, proposalCreated)
  else (db, Forwarded invalidProposalData).
Proof.
  unfold postProposal, validationResult, proposalChains, runChain. simpl.
  destruct (notEmpty (lookupField "title" (body req)));
    destruct (notEmpty (lookupField "description" (body req)));
    destruct (isArray (lookupField "actions" (body req)));
    destruct (notEmpty (lookupField "actions" (body req))); reflexivity.
Qed.


(** The errors of the validation, chain by chain. *)
Lemma validationResult_fields (req : Request) :
  validationResult proposalChains req =
  runItems "title" [NotEmpty; Trim; Escape] (lookupField "title" (body req))
  ++ runItems "description" [NotEmpty; Trim] (lookupField "description" (body req))
  ++ runItems "actions" [IsArray; NotEmpty] (lookupField "actions" (body req)).
Proof.
  unfold validationResult, proposalChains, runChain.
  cbn [map concat chainField chainItems]. rewrite app_nil_r. reflexivity.
Qed.


Lemma handle_keeps_db (db : Db) (c : ApiCall) : fst (handle db c) = db.
Proof.
  destruct c as [req | req]; simpl; [reflexivity|].
  rewrite postProposal_decision. destruct (_ && _); reflexivity.
Qed.

Lemma serve_keeps_db (calls : list ApiCall) : forall db, serve calls db = db.
Proof.
  induction calls as [|c rest IH]; intros db; simpl; [reflexivity|].
  rewrite handle_keeps_db. apply IH.
Qed.

(** C9.  [GET /proposals] answers 200 with an empty [proposals] list,
    whatever the database holds and whatever requests were served before. *)
Theorem get_proposals_is_empty (db : Db) (calls : list ApiCall) (req : Request) :
  getProposals (serve calls db) req
  = (serve calls db, Responded 200 (JObj [("proposals", JArr [])]))
  /\ serve calls db = db.
Proof. split; [reflexivity | apply serve_keeps_db]. Qed.

(** C10.  [POST /proposals] is refused with the 400 error whenever the title
    or the description is the empty string, and likewise when either is
    missing or [null]; the check on the actions is a further one: a request
    whose actions are not an array is refused in the same way.  Nothing else
    of the request matters for these refusals.  A request is answered 201
    only if its title and its description are there and are not the empty
    string and its actions are an array. *)
Theorem post_requires_title_and_description (db : Db) (req : Request) :
  let title := lookupField "title" (body req) in
  let description := lookupField "description" (body req) in
  let actions := lookupField "actions" (body req) in
  let absent (v : Json) := v = JStr "" \/ v = JUndefined \/ v = JNull in
  (absent title \/ absent description ->
     postProposal db req = (db, Forwarded invalidProposalData)
     /\ statusCode invalidProposalData = 400)
  /\ ((forall items, actions <> JArr items) ->
     postProposal db req = (db, Forwarded invalidProposalData))
  /\ (forall code payload,
        snd (postProposal db req) = Responded code payload ->
        code = 201 /\ ~ absent title /\ ~ absent description
        /\ exists items, actions = JArr items).
Proof.
  intros title description actions absent. rewrite postProposal_decision.
  fold title description actions.
  split; [|split].
  - intros [[H | [H | H]] | [H | [H | H]]]; rewrite H; simpl;
      rewrite ?andb_false_r; split; reflexivity.
  - intros H. assert (E : isArray actions = false).
    { destruct actions as [| | | | |items|]; try reflexivity.
      exfalso. apply (H items). reflexivity. }
    rewrite E, !andb_false_r. reflexivity.
  - intros code payload.
    destruct (notEmpty title) eqn:Ht; [|discriminate].
    destruct (notEmpty description) eqn:Hd; [|discriminate].
    destruct (isArray actions) eqn:Ha; [|discriminate].
    destruct (notEmpty actions); [|discriminate].
    simpl. intros [= <- _]. split; [reflexivity|].
    split; [|split].
    + intros [H | [H | H]]; rewrite H in Ht; discriminate Ht.
    + intros [H | [H | H]]; rewrite H in Hd; discriminate Hd.
    + destruct actions as [| | | | |items|]; try discriminate Ha. eauto.
Qed.

Lemma post_requires_title_and_description_witness :
  postProposal Sample.emptyDb Sample.noTitleRequest
  = (Sample.emptyDb, Forwarded invalidProposalData)
  /\ postProposal Sample.emptyDb Sample.noDescriptionRequest
     = (Sample.emptyDb, Forwarded invalidProposalData)
  /\ postProposal Sample.emptyDb {| body := ∅ |}
     = (Sample.emptyDb, Forwarded invalidProposalData).
Proof.
  split; [|split].
  - apply (proj1 (post_requires_title_and_description
                    Sample.emptyDb Sample.noTitleRequest)).
    left. left. reflexivity.
  - apply (proj1 (post_requires_title_and_description
                    Sample.emptyDb Sample.noDescriptionRequest)).
    right. left. reflexivity.
  - apply (proj1 (post_requires_title_and_description Sample.emptyDb {| body := ∅ |})).
    left. right. left. reflexivity.
Defined.

(** The unique index of [Vote]: a row is inserted only under a
    [(proposalId, voter)] pair the table does not hold yet, so the table
    never holds two rows of one pair. *)
Theorem createVote_keeps_votes_unique (db db' : Db) (v : Vote) :
  uniqueVotes db ->
  (voteKey v ∈ map voteKey (voteTable db) -> createVote v db = None)
  /\ (createVote v db = Some db' ->
      uniqueVotes db' /\ voteTable db' = voteTable db ++ [v]
      /\ proposalTable db' = proposalTable db).
Proof.
  unfold uniqueVotes, createVote. intros Hu. split.
  - intros Hin. destruct (decide (vote_id v ∈ map vote_id (voteTable db)));
      [reflexivity|].
    destruct (decide (voteKey v ∈ map voteKey (voteTable db)));
      [reflexivity | contradiction].
  - destruct (decide (vote_id v ∈ map vote_id (voteTable db))); [discriminate|].
    destruct (decide (voteKey v ∈ map voteKey (voteTable db))) as [|Hnew];
      [discriminate|].
    destruct (negb (PrimFloat.is_finite (power v))); [discriminate|].
    destruct (decide (proposalId v ∈ map proposal_id (proposalTable db)));
      [|discriminate].
    intros [= <-]. simpl. split; [|split; reflexivity].
    rewrite map_app. simpl. apply NoDup_app. split; [assumption|]. split.
    + intros k Hk Hin. apply list_elem_of_singleton in Hin. subst k. contradiction.
    + apply NoDup_singleton.
Qed.

Lemma createVote_keeps_votes_unique_witness :
  uniqueVotes Sample.dbWithProposal
  /\ createVote Sample.voteRow Sample.dbWithProposal = Some Sample.dbWithVote
  /\ uniqueVotes Sample.dbWithVote
  /\ createVote Sample.voteRow Sample.dbWithVote = None.
Proof.
  assert (H1 : uniqueVotes Sample.dbWithProposal) by apply NoDup_nil_2.
  assert (H2 : createVote Sample.voteRow Sample.dbWithProposal = Some Sample.dbWithVote)
    by reflexivity.
  destruct (proj2 (createVote_keeps_votes_unique Sample.dbWithProposal
                     Sample.dbWithVote Sample.voteRow H1) H2) as [Hu _].
  split; [exact H1|]. split; [exact H2|]. split; [exact Hu|].
  apply (proj1 (createVote_keeps_votes_unique Sample.dbWithVote Sample.dbWithVote
                  Sample.voteRow Hu)).
  simpl. apply list_elem_of_singleton. reflexivity.
Defined.

(** The two requests of the test suite. *)
Example api_tests :
  snd (postProposal Sample.emptyDb Sample.validRequest) = proposalCreated
  /\ snd (postProposal Sample.emptyDb Sample.emptyRequest)
     = Forwarded invalidProposalData.
Proof. split; reflexivity. Qed.

(** Neither handler of the router writes to the database: whatever requests
    are served, it holds what it held before. *)
Theorem router_never_writes (db : Db) (calls : list ApiCall) :
  (forall c, fst (handle db c) = db) /\ serve calls db = db.
Proof.
  split.
  - intros c. apply handle_keeps_db.
  - apply serve_keeps_db.
Qed.

(** In the title chain [notEmpty()] stands before [trim()].  Take any title
    that is not the empty string but of which trimming leaves nothing, a
    title made of blanks: it passes the check, the chain then leaves the
    empty string in the body, and the request is answered 201 all the same
    when its description and its actions pass. *)
Theorem blank_title_is_accepted (db : Db) (req : Request) (t : string) :
  lookupField "title" (body req) = JStr t ->
  t <> "" -> trim t = "" ->
  notEmpty (lookupField "description" (body req)) = true ->
  isArray (lookupField "actions" (body req)) = true ->
  notEmpty (lookupField "actions" (body req)) = true ->
  runItems "title" [NotEmpty; Trim; Escape] (JStr t) = []
  /\ sanitized [NotEmpty; Trim; Escape] (JStr t) = JStr ""
  /\ postProposal db req = (db, proposalCreated).
Proof.
  intros Htitle Ht Htrim Hd Ha Hn.
  assert (E : notEmpty (JStr t) = true).
  { simpl. destruct (String.eqb_spec t ""); [contradiction | reflexivity]. }
  split; [|split].
  - simpl. unfold notEmpty in E. simpl in E. rewrite E. reflexivity.
  - simpl. rewrite Htrim. reflexivity.
  - rewrite postProposal_decision, Htitle, E, Hd, Ha, Hn. reflexivity.
Qed.

Lemma blank_title_is_accepted_witness :
  sanitized [NotEmpty; Trim; Escape]
    (lookupField "title" (body Sample.blankTitleRequest)) = JStr ""
  /\ postProposal Sample.emptyDb Sample.blankTitleRequest
     = (Sample.emptyDb, proposalCreated).
Proof.
  assert (H1 : lookupField "title" (body Sample.blankTitleRequest)
               = JStr (String.append "   "
                         (String (ascii_of_nat 194) (String (ascii_of_nat 160) ""))))
    by reflexivity.
  rewrite H1.
  refine (proj2 (blank_title_is_accepted Sample.emptyDb Sample.blankTitleRequest _
                   H1 _ _ _ _ _)).
  - discriminate.
  - reflexivity.
  - reflexivity.
  - reflexivity.
  - reflexivity.
Defined.

(** C4, at the request of the test suite and in general: the handler answers
    201 with a message and nothing else; no answer of it carries an id, and
    the database holds what it held before, so no proposal has been
    created. *)
Theorem post_proposal_creates_nothing :
  postProposal Sample.emptyDb Sample.validRequest
  = (Sample.emptyDb, Responded 201 (JObj [("message", JStr "Proposal created")]))
  /\ payloadFields (snd (postProposal Sample.emptyDb Sample.validRequest)) = ["message"]
  /\ (forall db req,
        fst (postProposal db req) = db
        /\ "id" ∉ payloadFields (snd (postProposal db req))).
Proof.
  split; [reflexivity|]. split; [reflexivity|].
  intros db req. rewrite postProposal_decision.
  destruct (_ && _); simpl; split; try reflexivity.
  - intros H. apply list_elem_of_singleton in H. discriminate H.
  - intros H. inversion H.
Qed.






(** What [body('actions').isArray().notEmpty()] lets through.  [notEmpty()]
    looks at the items of an array and not at their number: for an array
    whose items are not arrays themselves the chain reports an error exactly
    when one of the items is the empty string, [null] or [undefined].  The
    array without items has no such item: a request with a title, a
    description and [actions: []] is answered 201. *)
Theorem empty_actions_pass_validation
    (db : Db) (req : Request) (items : list Json) :
  lookupField "actions" (body req) = JArr items ->
  Forall (fun item => isArray item = false) items ->
  (Forall (fun e => errField e <> "actions") (validationResult proposalChains req)
   <-> Forall (fun item => item <> JStr "" /\ item <> JNull /\ item <> JUndefined) items)
  /\ (items = [] ->
      forall t d,
        lookupField "title" (body req) = JStr t -> t <> "" ->
        lookupField "description" (body req) = JStr d -> d <> "" ->
        postProposal db req = (db, proposalCreated)).
Proof.
  intros Hactions Hflat.
  assert (Hother : forall field chain v, field <> "actions" ->
            Forall (fun e => errField e <> "actions") (runItems field chain v)).
  { intros field chain. induction chain as [|item rest IH]; intros v Hf; simpl.
    - constructor.
    - destruct (runItem item v) as [v' failed]. apply Forall_app. split.
      + destruct failed; repeat constructor. simpl. assumption.
      + apply IH. assumption. }
  assert (Hitems : forallb (fun item => negb (emptyText item)) items = true
                   <-> Forall (fun item => item <> JStr "" /\ item <> JNull
                                           /\ item <> JUndefined) items).
  { clear Hactions. induction Hflat as [|item rest Hitem _ IH]; simpl.
    - split; [constructor | reflexivity].
    - rewrite andb_true_iff, IH, Forall_cons.
      assert (E : negb (emptyText item) = true
                  <-> item <> JStr "" /\ item <> JNull /\ item <> JUndefined).
      { destruct item as [| | | |s| |]; simpl in *; try discriminate Hitem.
        - split; [discriminate | intros [_ [_ H]]; contradiction].
        - split; [discriminate | intros [_ [H _]]; contradiction].
        - split; [intros _; repeat split; discriminate | reflexivity].
        - split; [intros _; repeat split; discriminate | reflexivity].
        - destruct (String.eqb_spec s "") as [-> | Hs]; simpl.
          + split; [discriminate | intros [H _]; contradiction].
          + split; [|reflexivity]. intros _. split; [congruence|].
            split; discriminate.
        - split; [intros _; repeat split; discriminate | reflexivity]. }
      rewrite E. reflexivity. }
  split.
  - rewrite validationResult_fields, Hactions, <- Hitems, !Forall_app. split.
    + intros [_ [_ H]]. simpl in H.
      destruct (forallb (fun item => negb (emptyText item)) items);
        [reflexivity|].
      apply Forall_cons in H as [H _]. simpl in H. contradiction.
    + intros H.
      split; [apply Hother; discriminate|]. split; [apply Hother; discriminate|].
      simpl. rewrite H. constructor.
  - intros -> t d Ht Hne Hd Hde.
    rewrite postProposal_decision, Ht, Hd, Hactions. simpl.
    destruct (String.eqb_spec t ""); [contradiction|].
    destruct (String.eqb_spec d ""); [contradiction|]. reflexivity.
Qed.

Lemma empty_actions_pass_validation_witness :
  postProposal Sample.emptyDb Sample.noActionsRequest
  = (Sample.emptyDb, proposalCreated).
Proof.
  apply (proj2 (empty_actions_pass_validation Sample.emptyDb Sample.noActionsRequest
                  [] eq_refl (Forall_nil_2 _)) eq_refl
           "Test Proposal" "This is a test proposal");
    reflexivity || discriminate.
Defined.

End BackendFacts.

(* ===================================================================== *)
(** * Properties of the ledger *)
(* ===================================================================== *)

Module LedgerFacts.
Import Governance.

Lemma midpoint_between lo hi :
  (lo < hi)%nat -> (lo <= (lo + hi) / 2 < hi)%nat.
Proof.
  intros H. split.
  - apply Nat.div_le_lower_bound; lia.
  - apply Nat.Div0.div_lt_upper_bound; lia.
Qed.

(** The loop invariant of the binary search: left of the window everything
    is at or before [seq], right of it everything is after. *)
Lemma upperBound_window cps seq lo hi :
  ascending cps -> (lo <= hi <= length cps)%nat ->
  (forall i c, (i < lo)%nat -> cps !! i = Some c -> cp_seq c <= seq) ->
  (forall i c, (hi <= i)%nat -> cps !! i = Some c -> seq < cp_seq c) ->
  (upperBound cps seq lo hi <= length cps)%nat /\
  splitsAt cps seq (upperBound cps seq lo hi).
Proof.
  intros Hasc.
  funelim (upperBound cps seq lo hi); intros Hb Hlo Hhi;
    try match goal with
        | Hlt : (lo < hi)%nat |- _ =>
            destruct (midpoint_between lo hi Hlt) as [Hm1 Hm2]
        end.
  - (* the window is empty *)
    assert (lo = hi) by lia. subst hi. split; [lia | split; assumption].
  - (* the midpoint always holds an entry *)
    match goal with Hmid : cps !! _ = None |- _ => apply lookup_ge_None in Hmid end.
    lia.
  - (* the midpoint lies after [seq]: continue on the left *)
    match goal with
    | IH : ascending cps -> _, Hmid : cps !! _ = Some _ |- _ =>
        apply IH; [assumption | lia | assumption |];
        intros i d Hi Hd; specialize (Hasc _ _ _ _ Hi Hmid Hd); lia
    end.
  - (* the midpoint lies at or before [seq]: continue on the right *)
    match goal with
    | IH : ascending cps -> _, Hmid : cps !! _ = Some _ |- _ =>
        apply IH; [assumption | lia | | assumption];
        intros i d Hi Hd;
        assert (Hle : (i <= (lo + hi) / 2)%nat) by lia;
        specialize (Hasc _ _ _ _ Hle Hd Hmid); lia
    end.
Qed.

Lemma upperBound_splits cps seq :
  ascending cps ->
  (upperBound cps seq 0 (length cps) <= length cps)%nat /\
  splitsAt cps seq (upperBound cps seq 0 (length cps)).
Proof.
  intros Hasc. apply upperBound_window; [assumption | lia | intros; lia |].
  intros i c Hi Hc. apply lookup_lt_Some in Hc. lia.
Qed.

(** A list has one split point only. *)
Lemma splitsAt_unique cps seq r r' :
  (r <= length cps)%nat -> (r' <= length cps)%nat ->
  splitsAt cps seq r -> splitsAt cps seq r' -> r = r'.
Proof.
  intros Hr Hr' [Hb Ha] [Hb' Ha'].
  destruct (Nat.lt_trichotomy r r') as [Hlt | [Heq | Hgt]]; [| assumption |].
  - destruct (lookup_lt_is_Some_2 cps r) as [c Hc]; [lia|].
    pose proof (Ha r c (Nat.le_refl _) Hc). pose proof (Hb' r c Hlt Hc). lia.
  - destruct (lookup_lt_is_Some_2 cps r') as [c Hc]; [lia|].
    pose proof (Ha' r' c (Nat.le_refl _) Hc). pose proof (Hb r' c Hgt Hc). lia.
Qed.

(** Entries appended after [seq] do not move the answer at [seq]. *)
Lemma powerAt_app cps more seq :
  ascending (cps ++ more) -> Forall (fun c => seq < cp_seq c) more ->
  powerAt (cps ++ more) seq = powerAt cps seq.
Proof.
  intros Hasc Hmore.
  assert (Hasc' : ascending cps).
  { intros i j c d Hij Hc Hd. apply (Hasc i j c d Hij); apply lookup_app_l_Some; assumption. }
  destruct (upperBound_splits cps seq Hasc') as [Hlen [Hb Ha]].
  destruct (upperBound_splits (cps ++ more) seq Hasc) as [Hlen' Hsplit'].
  assert (Hsplit : splitsAt (cps ++ more) seq (upperBound cps seq 0 (length cps))).
  { split.
    - intros i c Hi Hc. rewrite lookup_app_l in Hc by lia. eauto.
    - intros i c Hi Hc. apply lookup_app_Some in Hc as [Hc | [Hge Hc]].
      + eauto.
      + rewrite Forall_forall in Hmore. apply Hmore.
        apply list_elem_of_lookup. eauto. }
  assert (Heq : upperBound (cps ++ more) seq 0 (length (cps ++ more))
                = upperBound cps seq 0 (length cps)).
  { eapply splitsAt_unique; [exact Hlen' | | exact Hsplit' | exact Hsplit].
    rewrite length_app. lia. }
  unfold powerAt. rewrite Heq.
  destruct (upperBound cps seq 0 (length cps)) as [|i]; [reflexivity|].
  rewrite lookup_app_l by lia. reflexivity.
Qed.

(** ** Appending keeps the order *)

Lemma orderedBelow_weaken b b' cs :
  b <= b' -> orderedBelow b cs -> orderedBelow b' cs.
Proof.
  intros Hle Hord a cps Ha. destruct (Hord a cps Ha) as [Hasc Hall].
  split; [assumption|]. eapply Forall_impl; [exact Hall|]. simpl. intros; lia.
Qed.

Lemma ascending_snoc cps c :
  ascending cps -> Forall (fun d => cp_seq d <= cp_seq c) cps ->
  ascending (cps ++ [c]).
Proof.
  intros Hasc Hall i j x y Hij Hx Hy.
  apply lookup_app_Some in Hy as [Hy | [Hge Hy]].
  - assert (Hx' : cps !! i = Some x).
    { apply lookup_lt_Some in Hy. rewrite lookup_app_l in Hx by lia. assumption. }
    eauto.
  - apply list_lookup_singleton_Some in Hy as [_ <-].
    apply lookup_app_Some in Hx as [Hx | [_ Hx]].
    + rewrite Forall_forall in Hall. apply Hall. apply list_elem_of_lookup. eauto.
    + apply list_lookup_singleton_Some in Hx as [_ <-]. lia.
Qed.

Lemma appendCheckpoint_ordered b a delta seq cs :
  b <= seq -> orderedBelow b cs -> orderedBelow seq (appendCheckpoint a delta seq cs).
Proof.
  intros Hle Hord a' cps'. unfold appendCheckpoint.
  destruct (decide (a = a')) as [<- | Hne].
  - rewrite lookup_insert_eq. intros [= <-].
    assert (Hold : ascending (default [] (cs !! a))
                   /\ Forall (fun c => cp_seq c <= b) (default [] (cs !! a))).
    { destruct (cs !! a) as [cps|] eqn:Hcs; simpl.
      - apply (Hord a cps Hcs).
      - split; [intros i j c d _ Hc; rewrite lookup_nil in Hc; discriminate | constructor]. }
    destruct Hold as [Hasc Hall]. split.
    + apply ascending_snoc; [assumption|]. simpl.
      eapply Forall_impl; [exact Hall|]. simpl. intros; lia.
    + apply Forall_app. split.
      * eapply Forall_impl; [exact Hall|]. simpl. intros; lia.
      * repeat constructor. simpl. lia.
  - rewrite lookup_insert_ne by assumption. intros Hcs.
    apply (orderedBelow_weaken b seq cs Hle Hord a' cps' Hcs).
Qed.

Lemma movePower_ordered b src dst amount seq cs :
  b <= seq -> orderedBelow b cs -> orderedBelow seq (movePower src dst amount seq cs).
Proof.
  intros Hle Hord. unfold movePower. destruct (decide (src = dst)).
  - apply (appendCheckpoint_ordered b); assumption.
  - apply (appendCheckpoint_ordered seq); [lia|].
    apply (appendCheckpoint_ordered b); assumption.
Qed.

Lemma ledgerStep_ordered b L c :
  b <= callSeq c -> orderedBelow b (checkpoints L) ->
  orderedBelow (callSeq c) (checkpoints (ledgerStep L c)).
Proof.
  intros Hle Hord. destruct c as [d e seq | f t amount seq]; simpl in *.
  - unfold delegate. destruct (decide (e = "")); simpl.
    + eapply orderedBelow_weaken; eassumption.
    + apply (movePower_ordered b); assumption.
  - unfold recordTransfer.
    destruct (decide (amount < 0)); simpl; [eapply orderedBelow_weaken; eassumption|].
    destruct (decide (balanceOf L f < amount)); simpl;
      [eapply orderedBelow_weaken; eassumption|].
    apply (movePower_ordered b); assumption.
Qed.

(** ** The total supply as of a past sequence number *)

Lemma powerAt_nil seq : powerAt [] seq = 0.
Proof. unfold powerAt. simp upperBound. reflexivity. Qed.

Lemma supply_step_comm (seq : Z) (z1 z2 : list Checkpoint) (y : Z) :
  powerAt z1 seq + (powerAt z2 seq + y) = powerAt z2 seq + (powerAt z1 seq + y).
Proof. lia. Qed.

Lemma appendCheckpoint_supply b a delta seq' seq cs :
  orderedBelow b cs -> b <= seq' -> seq < seq' ->
  map_fold (fun _ cps acc => powerAt cps seq + acc) 0 (appendCheckpoint a delta seq' cs)
  = map_fold (fun _ cps acc => powerAt cps seq + acc) 0 cs.
Proof.
  intros Hord Hb Hseq. unfold appendCheckpoint.
  set (f := fun (_ : string) cps acc => powerAt cps seq + acc).
  destruct (cs !! a) as [cps|] eqn:Hcs; simpl.
  - destruct (Hord a cps Hcs) as [Hasc Hall].
    rewrite <- insert_delete_eq.
    rewrite map_fold_insert_L;
      [| intros; apply supply_step_comm | apply lookup_delete_eq].
    rewrite (map_fold_delete_L f 0 a cps cs);
      [| intros; apply supply_step_comm | assumption].
    unfold f. f_equal. apply powerAt_app.
    + apply ascending_snoc; [assumption|]. simpl.
      eapply Forall_impl; [exact Hall|]. simpl. intros; lia.
    + repeat constructor. simpl. lia.
  - rewrite map_fold_insert_L;
      [| intros; apply supply_step_comm | assumption].
    unfold f. change ([?c]) with ([] ++ [c]).
    rewrite powerAt_app, powerAt_nil; [lia | | repeat constructor; simpl; lia].
    apply ascending_snoc; [| constructor].
    intros i j c d _ Hc. rewrite lookup_nil in Hc. discriminate.
Qed.

Lemma movePower_supply b src dst amount seq' seq cs :
  orderedBelow b cs -> b <= seq' -> seq < seq' ->
  map_fold (fun _ cps acc => powerAt cps seq + acc) 0 (movePower src dst amount seq' cs)
  = map_fold (fun _ cps acc => powerAt cps seq + acc) 0 cs.
Proof.
  intros Hord Hb Hseq. unfold movePower. destruct (decide (src = dst)).
  - apply (appendCheckpoint_supply b); assumption.
  - rewrite (appendCheckpoint_supply seq'); [| | lia | assumption].
    + apply (appendCheckpoint_supply b); assumption.
    + apply (appendCheckpoint_ordered b); assumption.
Qed.

Lemma ledgerStep_supply b L c seq :
  orderedBelow b (checkpoints L) -> b <= callSeq c -> seq < callSeq c ->
  totalSupplyAt (ledgerStep L c) seq = totalSupplyAt L seq.
Proof.
  intros Hord Hb Hseq. unfold totalSupplyAt.
  destruct c as [d e seq' | f t amount seq']; simpl in *.
  - unfold delegate. destruct (decide (e = "")); simpl; [reflexivity|].
    apply (movePower_supply b); assumption.
  - unfold recordTransfer.
    destruct (decide (amount < 0)); simpl; [reflexivity|].
    destruct (decide (balanceOf L f < amount)); simpl; [reflexivity|].
    apply (movePower_supply b); assumption.
Qed.

Lemma ledgerRun_supply seq calls : forall b L,
  orderedBelow b (checkpoints L) -> chronological b calls ->
  Forall (fun c => seq < callSeq c) calls ->
  totalSupplyAt (ledgerRun calls L) seq = totalSupplyAt L seq.
Proof.
  induction calls as [|c rest IH]; intros b L Hord Hchron Hafter; simpl in *.
  - reflexivity.
  - destruct Hchron as [Hle Hrest]. apply Forall_cons in Hafter as [Hc Hafter].
    rewrite (IH (callSeq c)); [| | assumption | assumption].
    + apply (ledgerStep_supply b); assumption.
    + apply (ledgerStep_ordered b); assumption.
Qed.

End LedgerFacts.

(* ===================================================================== *)
(** * Properties of the governor and the timelock *)
(* ===================================================================== *)

Module GovernorFacts.
Import Governance.

Section Governor.
Context {World : Type}.
Variable cfg : Config.
Variable perform : Action -> World -> option World.

Local Abbreviation Sys := (System World).

(** ** Outcome of a vote *)

Lemma tallyOutcome_succeeded L p :
  tallyOutcome cfg L p = Succeeded <->
  votesAgainst p < votesFor p
  /\ quorum cfg L (snapshotSeq p) <= votesFor p + votesAgainst p + votesAbstain p.
Proof.
  unfold tallyOutcome.
  destruct (Z.ltb_spec (votesAgainst p) (votesFor p));
    destruct (Z.leb_spec (quorum cfg L (snapshotSeq p))
                (votesFor p + votesAgainst p + votesAbstain p)); simpl;
    split; try discriminate; try lia; intros; split; lia || reflexivity || assumption.
Qed.

Lemma tallyOutcome_cases L p :
  tallyOutcome cfg L p = Succeeded \/ tallyOutcome cfg L p = Defeated.
Proof. unfold tallyOutcome. destruct (_ && _); [left | right]; reflexivity. Qed.

Lemma castVote_ledger pid voter support reason now (s : Sys) :
  ledger (fst (castVote cfg pid voter support reason now s)) = ledger s.
Proof.
  unfold castVote. destruct (proposals s !! pid) as [p|]; [|reflexivity].
  destruct (proposalState cfg (ledger s) p now); try reflexivity.
  destruct (hasVoted s pid voter); [reflexivity|].
  destruct (decide (_ = 0)); reflexivity.
Qed.

(** C2.  Once the voting window of a proposal has passed ([now] is neither
    before [votingStart] nor before [votingEnd]) and no stored state
    overrides the derived one, [state] is [Succeeded] exactly when the For
    votes exceed the Against votes and the three tallies together reach the
    quorum, and [Defeated] in every other case.  The quorum is
    [quorumNumerator / quorumDenominator] of the total supply as of the
    snapshot: casting votes does not move it, and neither do ledger events
    that come after the snapshot. *)
Theorem state_after_voting (s : Sys) (pid : nat) (p : Proposal) (now : Z) :
  proposals s !! pid = Some p ->
  stored p = Derived ->
  votingStart p <= now -> votingEnd p <= now ->
  let q := quorum cfg (ledger s) (snapshotSeq p) in
  let reached :=
    votesAgainst p < votesFor p
    /\ q <= votesFor p + votesAgainst p + votesAbstain p in
  (state cfg s pid now = Some Succeeded <-> reached)
  /\ (state cfg s pid now = Some Defeated <-> ~ reached)
  /\ q = totalSupplyAt (ledger s) (snapshotSeq p) * quorumNumerator cfg
            / quorumDenominator cfg
  /\ (forall pid' voter support reason t,
        quorum cfg (ledger (fst (castVote cfg pid' voter support reason t s)))
          (snapshotSeq p) = q)
  /\ (forall later,
        ledgerOrdered (ledger s) ->
        chronological (currentSeq (ledger s)) later ->
        Forall (fun c => snapshotSeq p < callSeq c) later ->
        quorum cfg (ledgerRun later (ledger s)) (snapshotSeq p) = q).
Proof.
  intros Hp Hst Hstart Hend q reached.
  assert (Hstate : state cfg s pid now = Some (tallyOutcome cfg (ledger s) p)).
  { unfold state. rewrite Hp. simpl. unfold proposalState. rewrite Hst.
    destruct (decide (now < votingStart p)); [lia|].
    destruct (decide (now < votingEnd p)); [lia|]. reflexivity. }
  pose proof (tallyOutcome_succeeded (ledger s) p) as Hsucc.
  split; [|split; [|split; [|split]]].
  - rewrite Hstate. split.
    + intros [= H]. apply Hsucc. exact H.
    + intros H. f_equal. apply Hsucc. exact H.
  - rewrite Hstate. split.
    + intros [= H] Hr. apply Hsucc in Hr. congruence.
    + intros Hn. f_equal.
      destruct (tallyOutcome_cases (ledger s) p) as [H | H]; [|exact H].
      exfalso. apply Hn. apply Hsucc. exact H.
  - reflexivity.
  - intros. rewrite castVote_ledger. reflexivity.
  - intros later Hord Hchron Hafter. unfold q, quorum.
    rewrite (LedgerFacts.ledgerRun_supply _ _ _ _ Hord Hchron Hafter). reflexivity.
Qed.

(** ** Atomic execution *)

Lemma runActions_fails (done rest : list Action) (failing : Action) : forall w w',
  runActions perform done w = Some w' -> perform failing w' = None ->
  runActions perform (done ++ failing :: rest) w = None.
Proof.
  induction done as [|a done IH]; intros w w' Hdone Hfail; simpl in *.
  - injection Hdone as ->. rewrite Hfail. reflexivity.
  - destruct (perform a w) as [w1|]; [|discriminate]. eapply IH; eassumption.
Qed.

(** C8.  When one of the actions of a due, [Scheduled] operation fails,
    [execute] is rejected and hands back the very state it was given: no
    action has taken effect on the world, the operation is still
    [Scheduled], the proposal's state is what it was.  The operation can be
    executed again: once the world lets all the actions through, a later
    [execute] succeeds and only then marks the operation [OpExecuted]. *)
Theorem execute_atomic
    (s : Sys) (oid : nat) (op : TimelockOperation) (p : Proposal) (now : Z)
    (done rest : list Action) (failing : Action) (w : World) :
  operations s !! oid = Some op ->
  op_state op = Scheduled ->
  op_eta op <= now ->
  proposals s !! op_proposalId op = Some p ->
  actions p = done ++ failing :: rest ->
  runActions perform done (world s) = Some w ->
  perform failing w = None ->
  let s' := fst (execute perform oid now s) in
  execute perform oid now s = (s, Rejected ActionFailed)
  /\ world s' = world s
  /\ op_state <$> operations s' !! oid = Some Scheduled
  /\ (forall t, state cfg s' (op_proposalId op) t = state cfg s (op_proposalId op) t)
  /\ (forall now' w0 w1,
        op_eta op <= now' ->
        runActions perform (actions p) w0 = Some w1 ->
        let retried := execute perform oid now' (withWorld w0 s') in
        snd retried = Ok tt
        /\ world (fst retried) = w1
        /\ op_state <$> operations (fst retried) !! oid = Some OpExecuted).
Proof.
  intros Hop Hst Heta Hp Hacts Hdone Hfail s'.
  assert (E : execute perform oid now s = (s, Rejected ActionFailed)).
  { unfold execute. rewrite Hop, Hst.
    destruct (decide (now < op_eta op)); [lia|].
    rewrite Hp, Hacts, (runActions_fails done rest failing _ _ Hdone Hfail).
    reflexivity. }
  subst s'. rewrite E. simpl.
  split; [reflexivity|]. split; [reflexivity|].
  split; [rewrite Hop; simpl; rewrite Hst; reflexivity|].
  split; [reflexivity|].
  intros now' w0 w1 Heta' Hrun. unfold execute. simpl.
  rewrite Hop, Hst. destruct (decide (now' < op_eta op)); [lia|].
  rewrite Hp, Hrun. simpl. split; [reflexivity|]. split; [reflexivity|].
  rewrite list_lookup_insert_eq by (apply lookup_lt_Some in Hop; assumption).
  reflexivity.
Qed.

End Governor.

(** Scenario C of the specification: supply 1000, quorum 4% (40), 30 For and 5
    Against. *)
Example scenario_C_defeated :
  quorum Sample.config (ledger Sample.afterC) 2 = 40
  /\ state Sample.config Sample.afterC 0 105 = Some Pending
  /\ state Sample.config Sample.afterC 0 120 = Some Active
  /\ state Sample.config Sample.afterC 0 200 = Some Defeated.
Proof. vm_compute. repeat split; reflexivity. Qed.

Lemma state_after_voting_witness :
  state Sample.config Sample.afterC 0 200 = Some Defeated
  <-> ~ (votesAgainst Sample.proposalC < votesFor Sample.proposalC
         /\ quorum Sample.config (ledger Sample.afterC) (snapshotSeq Sample.proposalC)
            <= votesFor Sample.proposalC + votesAgainst Sample.proposalC
               + votesAbstain Sample.proposalC).
Proof.
  assert (H1 : proposals Sample.afterC !! 0%nat = Some Sample.proposalC)
    by (vm_compute; reflexivity).
  assert (H2 : stored Sample.proposalC = Derived) by reflexivity.
  assert (H3 : votingStart Sample.proposalC <= 200) by (simpl; lia).
  assert (H4 : votingEnd Sample.proposalC <= 200) by (simpl; lia).
  exact (proj1 (proj2 (state_after_voting Sample.config Sample.afterC 0
                         Sample.proposalC 200 H1 H2 H3 H4))).
Defined.

(** Scenario A of the specification: alice, with power 965 over a threshold
    of 10, proposes; the proposal is [Pending] and turns [Active] once the
    voting delay has passed. *)
Example scenario_A_pending_then_active :
  snd (propose Sample.config "alice" [Sample.pay 60] "Pay" 100
         (run Sample.config Sample.spend
            [CallRecordTransfer "alice" "bob" 30 1;
             CallRecordTransfer "alice" "carol" 5 2] Sample.start)) = Ok 0%nat
  /\ state Sample.config Sample.proposed 0 100 = Some Pending
  /\ state Sample.config Sample.proposed 0 110 = Some Active.
Proof. vm_compute. repeat split; reflexivity. Qed.

(** Scenario D of the specification: [execute] before the eta is
    [TooEarly]; from the eta on, with a treasury that covers the payments, it
    runs the actions and the proposal is [Executed]. *)
Example scenario_D_timelock :
  (eta <$> proposals Sample.afterE !! 0%nat) = Some (Some 86600)
  /\ snd (execute Sample.spend 0 86599 (withWorld 150 Sample.afterE)) = Rejected TooEarly
  /\ snd (execute Sample.spend 0 86600 (withWorld 150 Sample.afterE)) = Ok tt
  /\ world (fst (execute Sample.spend 0 86600 (withWorld 150 Sample.afterE))) = 30
  /\ state Sample.config (fst (execute Sample.spend 0 86600 (withWorld 150 Sample.afterE)))
       0 86600 = Some Executed.
Proof. vm_compute. repeat split; reflexivity. Qed.

(** Scenario B of the specification, with bob's power of 30: his second vote
    is turned away and the tallies stay where they were. *)
Example scenario_B_already_voted :
  castVote Sample.config 0 "bob" Against "changed my mind" 130 Sample.afterC
  = (Sample.afterC, Rejected AlreadyVoted)
  /\ (votesFor <$> proposals Sample.afterC !! 0%nat) = Some 30.
Proof. vm_compute. split; reflexivity. Qed.

(** Scenario E of the specification: the second of two payments of 60 fails
    on a treasury of 100. *)
Lemma execute_atomic_witness :
  execute Sample.spend 0 90000 Sample.afterE = (Sample.afterE, Rejected ActionFailed)
  /\ world (fst (execute Sample.spend 0 90000 Sample.afterE)) = 100
  /\ snd (execute Sample.spend 0 90001
            (withWorld 150 (fst (execute Sample.spend 0 90000 Sample.afterE))))
     = Ok tt.
Proof.
  assert (H1 : operations Sample.afterE !! 0%nat = Some Sample.operationE)
    by (vm_compute; reflexivity).
  assert (H2 : op_state Sample.operationE = Scheduled) by reflexivity.
  assert (H3 : op_eta Sample.operationE <= 90000) by (simpl; lia).
  assert (H4 : proposals Sample.afterE !! op_proposalId Sample.operationE
               = Some Sample.proposalE) by (vm_compute; reflexivity).
  assert (H5 : actions Sample.proposalE = [Sample.pay 60] ++ Sample.pay 60 :: [])
    by reflexivity.
  assert (H6 : runActions Sample.spend [Sample.pay 60] (world Sample.afterE) = Some 40)
    by (vm_compute; reflexivity).
  assert (H7 : Sample.spend (Sample.pay 60) 40 = None) by (vm_compute; reflexivity).
  destruct (execute_atomic Sample.config Sample.spend Sample.afterE 0
              Sample.operationE Sample.proposalE 90000 [Sample.pay 60] []
              (Sample.pay 60) 40 H1 H2 H3 H4 H5 H6 H7)
    as [E [Hw [_ [_ Hretry]]]].
  split; [exact E|]. split; [rewrite Hw; vm_compute; reflexivity|].
  assert (H8 : op_eta Sample.operationE <= 90001) by (simpl; lia).
  assert (H9 : runActions Sample.spend (actions Sample.proposalE) 150 = Some 30)
    by (vm_compute; reflexivity).
  exact (proj1 (Hretry 90001 150 30 H8 H9)).
Defined.

End GovernorFacts.

(* ===================================================================== *)
(** * Properties of the deployment script *)
(* ===================================================================== *)

Module DeployFacts.
Import Deploy.

Section Script.
Context {Shell Failure : Type}.
Variable execAsync : string -> Shell -> Shell * option Failure.

(** The three stages, taken apart: what [deploy] leaves behind for each way
    the commands can go. *)
Lemma deploy_stages (p : @Process Shell Failure) :
  deploy execAsync p =
  match execAsync buildFrontend (shell p) with
  | (sh1, Some e) =>
      {| shell := sh1;
         console := console p ++ [Logged "Building frontend..."]
                      ++ [Errored "Deployment failed:" e];
         exitCode := Some 1 |}
  | (sh1, None) =>
      match execAsync buildBackend sh1 with
      | (sh2, Some e) =>
          {| shell := sh2;
             console := console p
                          ++ [Logged "Building frontend..."; Logged "Building backend..."]
                          ++ [Errored "Deployment failed:" e];
             exitCode := Some 1 |}
      | (sh2, None) =>
          match execAsync migrate sh2 with
          | (sh3, Some e) =>
              {| shell := sh3;
                 console := console p
                              ++ [Logged "Building frontend..."; Logged "Building backend...";
                                  Logged "Running database migrations..."]
                              ++ [Errored "Deployment failed:" e];
                 exitCode := Some 1 |}
          | (sh3, None) =>
              {| shell := sh3;
                 console := console p
                              ++ [Logged "Building frontend..."; Logged "Building backend...";
                                  Logged "Running database migrations...";
                                  Logged "Deployment completed successfully!"];
                 exitCode := exitCode p |}
          end
      end
  end.
Proof.
  unfold deploy, deploySteps, andThen, log, await. simpl.
  destruct (execAsync buildFrontend (shell p)) as [sh1 [e1|]]; simpl.
  { rewrite <- app_assoc. reflexivity. }
  destruct (execAsync buildBackend sh1) as [sh2 [e2|]]; simpl.
  { rewrite <- !app_assoc. reflexivity. }
  destruct (execAsync migrate sh2) as [sh3 [e3|]]; simpl;
    rewrite <- !app_assoc; reflexivity.
Qed.

(** The script runs its three commands in the order written and stops at
    the first that fails.  When all of them succeed it has printed the three
    progress lines and the success line and does not exit by itself.  When
    one fails, the commands before it have gone through and none after it is
    run; the script has printed the progress lines of the commands before it
    and its own, then the error of that command, never the success line, and
    exits with code 1. *)
Theorem deploy_stops_at_first_failure (p : @Process Shell Failure) :
  let result := runUntilFailure execAsync commands (shell p) in
  let done := completed execAsync commands (shell p) in
  let after := deploy execAsync p in
  shell after = fst result
  /\ match snd result with
     | None =>
         done = 3%nat
         /\ exitCode after = exitCode p
         /\ console after
            = console p ++ progressLines ++ [Logged "Deployment completed successfully!"]
     | Some error =>
         (done < 3)%nat
         /\ (exists command,
               commands !! done = Some command
               /\ execAsync command
                    (fst (runUntilFailure execAsync (take done commands) (shell p)))
                  = (fst result, Some error))
         /\ exitCode after = Some 1
         /\ console after
            = console p ++ take (S done) progressLines
                ++ [Errored "Deployment failed:" error]
     end.
Proof.
  intros result done after. subst result done after. rewrite deploy_stages.
  unfold commands. simpl.
  destruct (execAsync buildFrontend (shell p)) as [sh1 [e1|]] eqn:E1; simpl.
  { split; [reflexivity|]. split; [lia|]. split; [|split; reflexivity].
    exists buildFrontend. split; [reflexivity | exact E1]. }
  destruct (execAsync buildBackend sh1) as [sh2 [e2|]] eqn:E2; simpl.
  { split; [reflexivity|]. split; [lia|]. split; [|split; reflexivity].
    exists buildBackend. split; [reflexivity|]. rewrite E1. exact E2. }
  destruct (execAsync migrate sh2) as [sh3 [e3|]] eqn:E3; simpl.
  { split; [reflexivity|]. split; [lia|]. split; [|split; reflexivity].
    exists migrate. split; [reflexivity|]. rewrite E1, E2. exact E3. }
  split; [reflexivity|]. split; [reflexivity|]. split; reflexivity.
Qed.

End Script.

(** On a machine that records the commands it is given: the script gives it
    an initial stretch of (frontend build, backend build, migration), always
    starting with the frontend build, and the migration is among them only
    when both builds have succeeded. *)
Theorem migration_only_after_builds {Shell Failure : Type}
    (execAsync : string -> Shell -> Shell * option Failure) (sh : Shell) :
  let after := deploy (recording execAsync) (fresh (sh, [])) in
  let ran := snd (shell after) in
  ran `prefix_of` commands
  /\ head ran = Some buildFrontend
  /\ (migrate ∈ ran <->
      snd (execAsync buildFrontend sh) = None
      /\ snd (execAsync buildBackend (fst (execAsync buildFrontend sh))) = None).
Proof.
  intros after ran. subst ran after. rewrite deploy_stages.
  unfold recording, fresh, commands. simpl.
  destruct (execAsync buildFrontend sh) as [sh1 [e1|]]; simpl.
  { split; [exists [buildBackend; migrate]; reflexivity|]. split; [reflexivity|].
    split; [|intros [H _]; discriminate H].
    intros H. apply list_elem_of_singleton in H. discriminate H. }
  destruct (execAsync buildBackend sh1) as [sh2 [e2|]]; simpl.
  { split; [exists [migrate]; reflexivity|]. split; [reflexivity|].
    split; [|intros [_ H]; discriminate H].
    intros H. apply elem_of_cons in H as [H | H]; [discriminate H|].
    apply list_elem_of_singleton in H. discriminate H. }
  destruct (execAsync migrate sh2) as [sh3 [e3|]]; simpl.
  all: split; [exists []; reflexivity|]; split; [reflexivity|];
    split; [intros _; split; reflexivity|];
    intros _; apply elem_of_cons; right; apply elem_of_cons; right;
    apply list_elem_of_singleton; reflexivity.
Qed.

End DeployFacts.

(* ===================================================================== *)
(** * Properties of the database *)
(* ===================================================================== *)

Module StoreFacts.
Import Backend Store.

Lemma referenced_true (db : Db) :
  referenced db = true <->
  exists v, v ∈ voteTable db /\ proposalId v ∈ map proposal_id (proposalTable db).
Proof.
  unfold referenced. rewrite existsb_exists. split.
  - intros [v [Hin Hv]]. exists v. split; [apply list_elem_of_In; assumption|].
    apply bool_decide_eq_true in Hv. assumption.
  - intros [v [Hin Hv]]. exists v. split; [apply list_elem_of_In; assumption|].
    apply bool_decide_eq_true. assumption.
Qed.

(** The cleanup of the API tests cannot fail: whatever the tables hold, once
    the votes are gone no proposal is pointed at, and both tables end up
    empty.  Deleting the proposals alone is refused exactly when some vote
    points at a stored proposal. *)
Theorem beforeEach_empties (db : Db) :
  beforeEach db = Some empty
  /\ (deleteManyProposals db = None <->
      exists v, v ∈ voteTable db /\ proposalId v ∈ map proposal_id (proposalTable db)).
Proof.
  split; [reflexivity|].
  rewrite <- referenced_true. unfold deleteManyProposals.
  destruct (referenced db); split; intros H; reflexivity || discriminate H.
Qed.

(** An insert that goes through: what was checked and what is stored. *)
Lemma createVote_Some v (db db' : Db) :
  createVote v db = Some db' ->
  (voteKey v ∉ map voteKey (voteTable db))
  /\ (proposalId v ∈ map proposal_id (proposalTable db))
  /\ db' = {| proposalTable := proposalTable db; voteTable := voteTable db ++ [v] |}.
Proof.
  unfold createVote.
  destruct (decide (vote_id v ∈ map vote_id (voteTable db))); [discriminate|].
  destruct (decide (voteKey v ∈ map voteKey (voteTable db))) as [|Hnew];
    [discriminate|].
  destruct (negb (PrimFloat.is_finite (power v))); [discriminate|].
  destruct (decide (proposalId v ∈ map proposal_id (proposalTable db))) as [Hp|];
    [|discriminate].
  intros [= <-]. split; [assumption|]. split; [assumption | reflexivity].
Qed.


Lemma createProposal_consistent id now data (db db' : Db) :
  consistent db -> createProposal id now data db = Some db' -> consistent db'.
Proof.
  unfold createProposal. intros [Hids [Hvotes Href]].
  destruct (decide (id ∈ map proposal_id (proposalTable db))) as [|Hnew];
    [discriminate|].
  intros [= <-]. split; [|split].
  - unfold uniqueProposalIds. simpl. rewrite map_app. simpl.
    apply NoDup_app. split; [assumption|]. split; [|apply NoDup_singleton].
    intros k Hk Hin. apply list_elem_of_singleton in Hin. subst k. contradiction.
  - assumption.
  - unfold referentialIntegrity in *. simpl.
    eapply Forall_impl; [exact Href|]. simpl. intros v Hv.
    rewrite map_app. apply elem_of_app. left. assumption.
Qed.

Lemma createVote_consistent v (db db' : Db) :
  consistent db -> createVote v db = Some db' -> consistent db'.
Proof.
  intros [Hids [Hvotes Href]] Hcreate.
  apply createVote_Some in Hcreate as [Hnew [Hp ->]]. split; [|split].
  - assumption.
  - unfold uniqueVotes. simpl. rewrite map_app. simpl.
    apply NoDup_app. split; [assumption|]. split; [|apply NoDup_singleton].
    intros k Hk Hin. apply list_elem_of_singleton in Hin. subst k. contradiction.
  - unfold referentialIntegrity in *. simpl.
    apply Forall_app. split; [assumption|]. repeat constructor. assumption.
Qed.

Lemma write_consistent (db : Db) (w : Write) :
  consistent db -> consistent (write db w).
Proof.
  intros Hc. destruct w as [id now data | v | |]; simpl.
  - destruct (createProposal id now data db) as [db'|] eqn:E; simpl;
      [eapply createProposal_consistent; eassumption | assumption].
  - destruct (createVote v db) as [db'|] eqn:E; simpl;
      [eapply createVote_consistent; eassumption | assumption].
  - destruct Hc as [Hids _]. split; [assumption|]. split; constructor.
  - unfold deleteManyProposals. destruct (referenced db) eqn:E; simpl; [assumption|].
    destruct Hc as [_ [Hvotes Href]]. split; [constructor|]. split; [assumption|].
    unfold referentialIntegrity in *. simpl.
    apply Forall_forall. intros v Hv. exfalso.
    assert (Hr : referenced db = true); [|congruence].
    apply referenced_true. exists v. split; [assumption|].
    rewrite Forall_forall in Href. apply Href. assumption.
Qed.

(** However proposals and votes are created and deleted, the tables stay
    consistent: no two proposals share an id, no two votes share a
    (proposal, voter) pair, and every vote belongs to a stored proposal; in
    particular a vote outlives no proposal. *)
Theorem writes_keep_consistency (ws : list Write) (db : Db) :
  consistent db -> consistent (writes ws db).
Proof.
  revert db. induction ws as [|w rest IH]; intros db Hc; simpl; [assumption|].
  apply IH. apply write_consistent. assumption.
Qed.

Lemma writes_keep_consistency_witness :
  consistent Store.empty
  /\ consistent
       (writes [ CreateVote Sample.voteRow;
                 CreateProposal "p-1" 0
                   {| data_title := "Test Proposal";
                      data_description := "This is a test proposal";
                      data_actions := [Sample.action]; data_status := None |};
                 CreateVote Sample.voteRow; CreateVote Sample.voteRow;
                 DeleteManyProposals ] Store.empty)
  /\ writes [ CreateVote Sample.voteRow;
              CreateProposal "p-1" 0
                {| data_title := "Test Proposal";
                   data_description := "This is a test proposal";
                   data_actions := [Sample.action]; data_status := None |};
              CreateVote Sample.voteRow; CreateVote Sample.voteRow;
              DeleteManyProposals ] Store.empty
     = Sample.dbWithVote.
Proof.
  assert (H : consistent Store.empty).
  { split; [constructor|]. split; constructor. }
  split; [exact H|]. split; [|reflexivity].
  apply writes_keep_consistency. exact H.
Defined.

(** ** One vote per proposal and voter *)







End StoreFacts.

(* ===================================================================== *)
(** * Properties of the contract code *)
(* ===================================================================== *)

Module ContractFacts.
Import Contracts.

(** ** [propose] *)

Lemma checkTargets_passes (targets : list Z) :
  checkTargets targets = Passes <-> Forall (fun t => t <> 0) targets.
Proof.
  induction targets as [|t rest IH]; simpl.
  - split; [constructor | reflexivity].
  - destruct (decide (t = 0)) as [-> | Hne].
    + split; [discriminate|]. intros H. apply Forall_cons in H as [H _]. contradiction.
    + rewrite IH. split.
      * intros H. constructor; assumption.
      * intros H. apply Forall_cons in H as [_ H]. assumption.
Qed.

Lemma checkTargets_reverts (targets : list Z) (reason : string) :
  checkTargets targets = Reverts reason ->
  reason = "Invalid target" /\ Exists (fun t => t = 0) targets.
Proof.
  induction targets as [|t rest IH]; simpl; [discriminate|].
  destruct (decide (t = 0)) as [-> | Hne].
  - intros [= <-]. split; [reflexivity | left; reflexivity].
  - intros H. destruct (IH H) as [-> Hex]. split; [reflexivity | right; assumption].
Qed.

(** [propose] gets past its checks exactly for a proposal with at least one
    target, as many values and calldatas as targets, a description that is
    not empty and no zero target.  The checks apply in that order: an empty
    list of targets is reported as "Empty proposal" whatever else is wrong,
    and a zero target is reported only for a proposal that is well formed
    otherwise. *)
Theorem proposeGuard_accepts
    (targets values : list Z) (calldatas : list string) (description : string) :
  let wellFormed :=
    targets <> [] /\ length values = length targets
    /\ length calldatas = length targets /\ description <> "" in
  (proposeGuard targets values calldatas description = Passes
   <-> wellFormed /\ Forall (fun t => t <> 0) targets)
  /\ (proposeGuard targets values calldatas description = Reverts "Empty proposal"
      <-> targets = [])
  /\ (proposeGuard targets values calldatas description = Reverts "Invalid target"
      <-> wellFormed /\ Exists (fun t => t = 0) targets).
Proof.
  intros wellFormed. subst wellFormed. unfold proposeGuard.
  destruct targets as [|t rest].
  { simpl. split; [|split].
    - split; [discriminate | intros [[H _] _]; contradiction].
    - split; reflexivity.
    - split; [discriminate | intros [[H _] _]; contradiction]. }
  rewrite bool_decide_eq_true_2 by (simpl; lia).
  destruct (bool_decide (length (t :: rest) = length values)) eqn:Hv.
  2:{ apply bool_decide_eq_false in Hv. simpl andb. cbv iota.
      split; [|split]; (split; [discriminate|]).
      - intros [[_ [H _]] _]. congruence.
      - discriminate.
      - intros [[_ [H _]] _]. congruence. }
  apply bool_decide_eq_true in Hv.
  destruct (bool_decide (length (t :: rest) = length calldatas)) eqn:Hc.
  2:{ apply bool_decide_eq_false in Hc. simpl andb. cbv iota.
      split; [|split]; (split; [discriminate|]).
      - intros [[_ [_ [H _]]] _]. congruence.
      - discriminate.
      - intros [[_ [_ [H _]]] _]. congruence. }
  apply bool_decide_eq_true in Hc. simpl andb. cbv iota.
  destruct description as [|c d].
  { simpl. split; [|split]; (split; [discriminate|]).
    - intros [[_ [_ [_ H]]] _]. contradiction.
    - discriminate.
    - intros [[_ [_ [_ H]]] _]. contradiction. }
  rewrite bool_decide_eq_true_2 by (simpl; lia).
  assert (Hwf : t :: rest <> [] /\ length values = length (t :: rest)
                /\ length calldatas = length (t :: rest) /\ String c d <> "").
  { repeat split; try congruence; discriminate. }
  split; [|split].
  - rewrite checkTargets_passes. split; [intros H; split; assumption | intros [_ H]; exact H].
  - split; [|discriminate]. intros H. apply checkTargets_reverts in H as [H _].
    discriminate H.
  - split.
    + intros H. apply checkTargets_reverts in H as [_ H]. split; assumption.
    + intros [_ Hex].
      destruct (checkTargets (t :: rest)) as [|reason] eqn:E.
      * apply checkTargets_passes in E. rewrite Forall_forall in E.
        apply Exists_exists in Hex as [x [Hin Hx]]. exfalso. exact (E x Hin Hx).
      * apply checkTargets_reverts in E as [-> _]. reflexivity.
Qed.

(** ** [Token.transfer] *)

Lemma supply_comm (z1 z2 y : Z) : z1 + (z2 + y) = z2 + (z1 + y).
Proof. lia. Qed.

Lemma totalSupply_insert (balances : gmap Z Z) (account balance : Z) :
  totalSupply (<[account := balance]> balances)
  = totalSupply balances - balanceOf balances account + balance.
Proof.
  unfold totalSupply, balanceOf.
  destruct (balances !! account) as [old|] eqn:E; simpl.
  - rewrite <- insert_delete_eq.
    rewrite map_fold_insert_L; [| intros; apply supply_comm | apply lookup_delete_eq].
    rewrite (map_fold_delete_L _ 0 account old balances);
      [| intros; apply supply_comm | assumption].
    lia.
  - rewrite map_fold_insert_L; [| intros; apply supply_comm | assumption]. lia.
Qed.

Lemma balanceOf_insert (balances : gmap Z Z) (account balance other : Z) :
  balanceOf (<[account := balance]> balances) other
  = if decide (account = other) then balance else balanceOf balances other.
Proof.
  unfold balanceOf. rewrite lookup_insert.
  destruct (decide (account = other)); reflexivity.
Qed.

(** [transfer] reverts exactly when the sender holds less than the amount or
    the recipient's balance would leave the range.  When it goes through,
    the sender has the amount less and the recipient the amount more (a
    transfer to oneself changes nothing), every other balance is as before,
    the total supply is the same, and all balances are still in range. *)
Theorem transfer_moves_tokens (sender to amount : Z) (balances : gmap Z Z) :
  inRange balances -> isUint256 amount ->
  (transfer sender to amount balances = None
   <-> balanceOf balances sender < amount
       \/ (sender <> to /\ uint256Limit <= balanceOf balances to + amount))
  /\ (forall balances',
        transfer sender to amount balances = Some balances' ->
        totalSupply balances' = totalSupply balances
        /\ inRange balances'
        /\ balanceOf balances' sender
           = (if decide (sender = to) then balanceOf balances sender
              else balanceOf balances sender - amount)
        /\ balanceOf balances' to
           = (if decide (sender = to) then balanceOf balances sender
              else balanceOf balances to + amount)
        /\ (forall other, other <> sender -> other <> to ->
              balanceOf balances' other = balanceOf balances other)).
Proof.
  intros Hrange Hamount.
  pose proof (Hrange sender) as Hs. pose proof (Hrange to) as Ht.
  unfold isUint256 in *. unfold transfer, checkedSub, checkedAdd.
  destruct (decide (amount <= balanceOf balances sender)) as [Hle | Hgt]; simpl.
  2:{ split; [split; [intros _; left; lia | reflexivity] | discriminate]. }
  rewrite balanceOf_insert.
  destruct (decide (sender = to)) as [<- | Hne].
  - destruct (decide (balanceOf balances sender - amount + amount < uint256Limit));
      [|lia]. simpl. split.
    + split; [discriminate | intros [H | [H _]]; [lia | contradiction]].
    + intros balances' [= <-].
      rewrite !totalSupply_insert, !balanceOf_insert.
      split; [repeat case_decide; congruence || lia|]. split.
      { intros a. rewrite !balanceOf_insert. unfold isUint256.
        pose proof (Hrange a). unfold isUint256 in *.
        repeat case_decide; congruence || lia. }
      split; [repeat case_decide; congruence || lia|].
      split; [repeat case_decide; congruence || lia|].
      intros other Ho _. rewrite !balanceOf_insert.
      repeat case_decide; congruence || lia.
  - destruct (decide (balanceOf balances to + amount < uint256Limit)) as [Hfit | Hover];
      simpl.
    + split.
      * split; [discriminate | intros [H | [_ H]]; lia].
      * intros balances' [= <-].
        rewrite !totalSupply_insert, !balanceOf_insert.
        split; [repeat case_decide; congruence || lia|]. split.
        { intros a. rewrite !balanceOf_insert. unfold isUint256.
          pose proof (Hrange a). unfold isUint256 in *.
          repeat case_decide; congruence || lia. }
        split; [repeat case_decide; congruence || lia|].
        split; [repeat case_decide; congruence || lia|].
        intros other Ho1 Ho2. rewrite !balanceOf_insert.
        repeat case_decide; congruence || lia.
    + split; [split; [intros _; right; split; [assumption | lia] | reflexivity]
             | discriminate].
Qed.

Lemma transfer_moves_tokens_witness :
  inRange {[ 1 := 100; 2 := 5 ]} /\ isUint256 40
  /\ transfer 1 2 40 {[ 1 := 100; 2 := 5 ]} = Some {[ 1 := 60; 2 := 45 ]}
  /\ totalSupply {[ 1 := 60; 2 := 45 ]} = totalSupply {[ 1 := 100; 2 := 5 ]}.
Proof.
  assert (H1 : inRange {[ 1 := 100; 2 := 5 ]}).
  { intros a. unfold isUint256, uint256Limit, balanceOf.
    destruct (decide (a = 1)) as [-> | H1];
      [rewrite lookup_insert_eq; simpl; lia|].
    destruct (decide (a = 2)) as [-> | H2];
      [rewrite lookup_insert_ne, lookup_singleton_eq by congruence; simpl; lia|].
    rewrite lookup_insert_ne by congruence.
    rewrite lookup_singleton_ne by congruence. simpl. lia. }
  assert (H2 : isUint256 40) by (unfold isUint256, uint256Limit; lia).
  assert (H3 : transfer 1 2 40 {[ 1 := 100; 2 := 5 ]} = Some {[ 1 := 60; 2 := 45 ]})
    by (vm_compute; reflexivity).
  split; [exact H1|]. split; [exact H2|]. split; [exact H3|].
  exact (proj1 (proj2 (transfer_moves_tokens 1 2 40 _ H1 H2) _ H3)).
Defined.

(** ** [processArray] *)

Lemma sumOf_nonneg (data : list Z) : Forall isUint256 data -> 0 <= sumOf data.
Proof.
  unfold sumOf. induction 1 as [|x rest Hx _ IH]; simpl; [lia|].
  unfold isUint256 in Hx. lia.
Qed.

Lemma sumOf_permutation (data data' : list Z) :
  data' ≡ₚ data -> sumOf data' = sumOf data.
Proof. unfold sumOf. induction 1; simpl; lia. Qed.

Lemma sumFrom_total (data : list Z) : forall sum,
  isUint256 sum -> Forall isUint256 data ->
  sumFrom sum data
  = if decide (sum + sumOf data < uint256Limit) then Some (sum + sumOf data) else None.
Proof.
  induction data as [|x rest IH]; intros sum Hsum Hdata; simpl.
  - unfold isUint256 in Hsum. rewrite Z.add_0_r.
    destruct (decide (sum < uint256Limit)); [reflexivity | lia].
  - apply Forall_cons in Hdata as [Hx Hrest].
    pose proof (sumOf_nonneg rest Hrest) as Hpos.
    unfold isUint256 in Hsum, Hx. unfold sumOf in *. unfold checkedAdd.
    destruct (decide (sum + x < uint256Limit)) as [Hfit | Hover]; simpl.
    + rewrite IH; [| unfold isUint256; lia | assumption].
      destruct (decide (sum + x + foldr Z.add 0 rest < uint256Limit));
        destruct (decide (sum + (x + foldr Z.add 0 rest) < uint256Limit));
        try lia; [f_equal; lia | reflexivity].
    + destruct (decide (sum + (x + foldr Z.add 0 rest) < uint256Limit));
        [lia | reflexivity].
Qed.

(** [processArray] returns the sum of the entries when that sum is a
    [uint256], the empty array giving 0, and reverts when it is not, however
    the entries are arranged. *)
Theorem processArray_sums (data : list Z) :
  Forall isUint256 data ->
  processArray data
  = (if decide (sumOf data < uint256Limit) then Some (sumOf data) else None)
  /\ (forall data', data' ≡ₚ data -> processArray data' = processArray data).
Proof.
  intros Hdata.
  assert (H0 : isUint256 0) by (unfold isUint256, uint256Limit; lia).
  assert (Hsum : forall d, Forall isUint256 d ->
            processArray d
            = if decide (sumOf d < uint256Limit) then Some (sumOf d) else None).
  { intros d Hd. unfold processArray. rewrite sumFrom_total by assumption.
    rewrite Z.add_0_l. reflexivity. }
  split; [apply Hsum; assumption|].
  intros data' Hperm.
  assert (Hdata' : Forall isUint256 data') by (rewrite Hperm; assumption).
  rewrite !Hsum by assumption.
  assert (E : sumOf data' = sumOf data).
  { apply sumOf_permutation. assumption. }
  rewrite E. reflexivity.
Qed.

Lemma processArray_sums_witness :
  Forall isUint256 [1; 2; 3]
  /\ processArray [1; 2; 3] = Some 6
  /\ processArray [uint256Limit - 1; 1] = None.
Proof.
  assert (H : Forall isUint256 [1; 2; 3])
    by (repeat constructor; unfold uint256Limit; lia).
  assert (H' : Forall isUint256 [uint256Limit - 1; 1])
    by (repeat constructor; unfold uint256Limit; lia).
  split; [exact H|]. split.
  - rewrite (proj1 (processArray_sums [1; 2; 3] H)). reflexivity.
  - rewrite (proj1 (processArray_sums [uint256Limit - 1; 1] H')). reflexivity.
Defined.

End ContractFacts.
